(** * Verification of the document chunker and the vector store of the
    ModernEU RAG chatbot ([app/utils/document_processor.py] and
    [app/utils/vector_store.py]).

    Python strings are modelled as lists of ASCII characters, Python
    integers as [Z].  A [while] loop is run with an explicit fuel bound:
    [None] means the loop had not finished when the fuel ran out. *)

From Stdlib Require Import List Ascii String ZArith Lia Bool.
From Stdlib Require Import Permutation.
Import ListNotations.
Open Scope Z_scope.

Module Chunker.

Definition pystr := list ascii.

(** [len(s)] *)
Definition py_len (s : pystr) : Z := Z.of_nat (List.length s).

(** Normalisation of a slice bound, as [slice.indices(len)] does it for
    step 1: negative indices count from the end, then clamp to [0, len]. *)
Definition py_norm (i n : Z) : Z :=
  if i <? 0 then Z.max 0 (i + n) else Z.min i n.

(** [s[a:b]] *)
Definition py_slice (s : pystr) (a b : Z) : pystr :=
  let n := py_len s in
  let a' := py_norm a n in
  let b' := py_norm b n in
  if a' <? b' then firstn (Z.to_nat (b' - a')) (skipn (Z.to_nat a') s) else [].

(** [s.rfind(c)] for a one-character needle: the highest index holding
    [c], or [-1]. *)
Fixpoint rfind_from (c : ascii) (s : pystr) (i best : Z) : Z :=
  match s with
  | [] => best
  | x :: s' => rfind_from c s' (i + 1) (if Ascii.eqb x c then i else best)
  end.

Definition rfind (s : pystr) (c : ascii) : Z := rfind_from c s 0 (-1).

(** [str.isspace] on one ASCII character: 0x09-0x0D, 0x1C-0x1F and 0x20. *)
Definition isspace (c : ascii) : bool :=
  let n := nat_of_ascii c in
  ((9 <=? n) && (n <=? 13))%nat || ((28 <=? n) && (n <=? 32))%nat.

Fixpoint lstrip (s : pystr) : pystr :=
  match s with
  | [] => []
  | c :: s' => if isspace c then lstrip s' else s
  end.

Definition rstrip (s : pystr) : pystr := rev (lstrip (rev s)).

(** [s.strip()] *)
Definition strip (s : pystr) : pystr := rstrip (lstrip s).

(** The fields of [DocumentProcessor] used by [chunk_text]. *)
Record DocumentProcessor := {
  chunk_size : Z;
  chunk_overlap : Z
}.

(** [if chunk: chunks.append(chunk)] *)
Definition keep_nonempty (chunk : pystr) : list pystr :=
  match chunk with [] => [] | _ => [chunk] end.

Definition period : ascii := "."%char.
Definition newline : ascii := "010"%char.
Definition space : ascii := " "%char.

(** One iteration of the [while start < text_length] loop of
    [chunk_text]: the chunks appended in it and the next [start].
    [break_point > self.chunk_size * 0.5] compares an int with a float;
    for integers it is [2 * break_point > chunk_size]. *)
Definition chunk_step (self : DocumentProcessor) (text : pystr) (start : Z)
    : list pystr * Z :=
  let text_length := py_len text in
  let end0 := start + chunk_size self in
  let chunk0 := py_slice text start end0 in
  let '(chunk1, end1) :=
    if end0 <? text_length then
      let last_period := rfind chunk0 period in
      let last_newline := rfind chunk0 newline in
      let last_space := rfind chunk0 space in
      let break_point := Z.max (Z.max last_period last_newline) last_space in
      if chunk_size self <? 2 * break_point
      then (py_slice chunk0 0 (break_point + 1), start + break_point + 1)
      else (chunk0, end0)
    else (chunk0, end0) in
  (keep_nonempty (strip chunk1), end1 - chunk_overlap self).

Fixpoint chunk_loop (self : DocumentProcessor) (text : pystr) (fuel : nat)
    (start : Z) (chunks : list pystr) : option (list pystr) :=
  if start <? py_len text then
    match fuel with
    | O => None
    | S fuel' =>
        let '(out, start') := chunk_step self text start in
        chunk_loop self text fuel' start' (chunks ++ out)
    end
  else Some chunks.

(** [DocumentProcessor.chunk_text], run for at most [fuel] iterations. *)
Definition chunk_text (self : DocumentProcessor) (fuel : nat) (text : pystr)
    : option (list pystr) :=
  chunk_loop self text fuel 0 [].

(** Helpers for stating properties of [chunk_text]: the characters
    [chunk_text] may break after, and the substring [s[lo:hi]] for
    [0 <= lo <= hi]. *)
Definition is_break_char (c : ascii) : bool :=
  Ascii.eqb c period || Ascii.eqb c newline || Ascii.eqb c space.

Definition sub (s : pystr) (lo hi : Z) : pystr :=
  firstn (Z.to_nat (hi - lo)) (skipn (Z.to_nat lo) s).

End Chunker.

(** Exceptions raised by the modelled code, and the outcome of a call:
    a value, a raised exception, or a loop still running when the fuel
    ran out. *)
Inductive exn :=
| FileNotFoundError
| ValueError
| EmbeddingError
| DuplicateIDError.

Inductive result (A : Type) :=
| Ok (a : A)
| Raise (e : exn)
| OutOfFuel.
Arguments Ok {A} a.
Arguments Raise {A} e.
Arguments OutOfFuel {A}.

Module Ingest.
Import Chunker.

Fixpoint pystr_eqb (a b : pystr) : bool :=
  match a, b with
  | [], [] => true
  | x :: a', y :: b' => Ascii.eqb x y && pystr_eqb a' b'
  | _, _ => false
  end.

(** [str.lower] on ASCII. *)
Definition lower_char (c : ascii) : ascii :=
  let n := nat_of_ascii c in
  if ((65 <=? n) && (n <=? 90))%nat then ascii_of_nat (n + 32) else c.

Definition lower (s : pystr) : pystr := map lower_char s.

(** [PurePath.suffix] of a file name: from its last dot, unless that dot
    is the first or the last character. *)
Definition suffix (name : pystr) : pystr :=
  let i := rfind name period in
  if (0 <? i) && (i <? py_len name - 1) then py_slice name i (py_len name)
  else [].

(** One file reported by [os.walk]: its directory, its name and what
    [open(..., encoding='utf-8').read()] gives ([None]: it raises). *)
Record walk_entry := {
  root : pystr;
  file : pystr;
  disk : option pystr
}.

(** [os.path.join(root, file)] for a relative file name. *)
Definition join (r f : pystr) : pystr :=
  match rev r with
  | "/"%char :: _ => r ++ f
  | _ => r ++ ["/"%char] ++ f
  end.

Definition entry_path (e : walk_entry) : pystr := join (root e) (file e).

Definition txt : pystr := list_ascii_of_string ".txt".

(** [load_file]: [None] when it raises ([ValueError] for an unsupported
    extension, or the read error of [load_text_file]). *)
Definition load_file (e : walk_entry) : option pystr :=
  if pystr_eqb (lower (suffix (file e))) txt then disk e else None.

(** The metadata dictionary built by [process_directory]. *)
Record chunk_meta := {
  source : pystr;
  chunk_index : Z;
  total_chunks : Z;
  file_path : pystr
}.

(** A document dictionary: [content] and an optional [metadata]. *)
Record doc := {
  content : pystr;
  metadata : option chunk_meta
}.

(** [for i, chunk in enumerate(chunks): documents.append(...)], from
    index [i] on. *)
Fixpoint enumerate_docs (name path : pystr) (total : Z) (i : nat)
    (chunks : list pystr) : list doc :=
  match chunks with
  | [] => []
  | c :: cs =>
      {| content := c;
         metadata := Some {| source := name; chunk_index := Z.of_nat i;
                             total_chunks := total; file_path := path |} |}
      :: enumerate_docs name path total (S i) cs
  end.

Definition starts_with_dot (name : pystr) : bool :=
  match name with c :: _ => Ascii.eqb c period | [] => false end.

(** The body of the [for file in files] loop for one file: the documents
    it appends. An exception inside the [try] is logged and the file
    contributes nothing. *)
Definition process_file (self : DocumentProcessor) (fuel : nat)
    (e : walk_entry) : result (list doc) :=
  if starts_with_dot (file e) then Ok []
  else
    match load_file e with
    | None => Ok []
    | Some content =>
        match strip content with
        | [] => Ok []
        | _ =>
            match chunk_text self fuel content with
            | None => OutOfFuel
            | Some chunks =>
                let n := List.length chunks in
                Ok (enumerate_docs (file e) (entry_path e) (Z.of_nat n) 0 chunks)
            end
        end
    end.

Fixpoint process_files (self : DocumentProcessor) (fuel : nat)
    (walk : list walk_entry) (documents : list doc) : result (list doc) :=
  match walk with
  | [] => Ok documents
  | e :: walk' =>
      match process_file self fuel e with
      | Ok ds => process_files self fuel walk' (documents ++ ds)
      | Raise x => Raise x
      | OutOfFuel => OutOfFuel
      end
  end.

(** [DocumentProcessor.process_directory]: [directory_exists] is
    [os.path.exists(directory)], [walk] the files [os.walk] lists. *)
Definition process_directory (self : DocumentProcessor) (fuel : nat)
    (directory_exists : bool) (walk : list walk_entry) : result (list doc) :=
  if directory_exists then process_files self fuel walk []
  else Raise FileNotFoundError.

(** The documents whose metadata names the file path [p]. *)
Definition docs_of_path (p : pystr) (docs : list doc) : list doc :=
  filter (fun d => match metadata d with
                   | Some md => pystr_eqb (file_path md) p
                   | None => false
                   end) docs.

End Ingest.

Module VectorStore.
Import Chunker Ingest.

Section Store.

(** The embedding vectors and the embedding model ([encode] gives [None]
    when [SentenceTransformer.encode] raises). *)
Context {embedding : Type}.
Variable encode : pystr -> option embedding.

(** An entry of the collection; [id] is [N] of the id string ["doc_N"]. *)
Record entry := {
  id : nat;
  vector : embedding;
  document : pystr;
  meta : option chunk_meta
}.

(** The [meu_documents] collection, in insertion order. *)
Record store := { collection : list entry }.

(** The order in which the collection's HNSW index, built over the
    store [st] and queried with [q], returns entries: [ranks_before st q a
    b] when it returns [a] ahead of [b]. The index is approximate, so this
    is left abstract; an exact nearest-neighbour search is the instance
    [fun _ q a b => dist q (vector a) <=? dist q (vector b)]. *)
Variable ranks_before : store -> embedding -> entry -> entry -> bool.

Definition empty_store : store := {| collection := [] |}.

(** [self.collection.count()] *)
Definition count (st : store) : nat := List.length (collection st).

Fixpoint nodup_nat (l : list nat) : bool :=
  match l with
  | [] => true
  | x :: l' => negb (existsb (Nat.eqb x) l') && nodup_nat l'
  end.

(** [collection.add]: the batch is validated before anything is
    stored. Repeated ids within the batch raise [DuplicateIDError]; an
    empty metadata dictionary (what [doc.get('metadata', {})] gives for a
    document without metadata, here [meta = None]) raises [ValueError].
    A valid batch is stored, except the entries whose id is already in
    the collection, which are skipped. *)
Definition collection_add (st : store) (batch : list entry) : result store :=
  let ids := map id batch in
  if negb (nodup_nat ids) then Raise DuplicateIDError
  else if existsb (fun e => match meta e with None => true | Some _ => false end) batch
  then Raise ValueError
  else Ok {| collection :=
               collection st
               ++ filter (fun e => negb (existsb (Nat.eqb (id e)) (map id (collection st))))
                         batch |}.

(** The [for i, doc in enumerate(documents)] loop of [add_documents]:
    one entry per document with id [doc_{count + i}], or [None] as soon
    as an embedding fails. *)
Fixpoint embed_docs (base i : nat) (docs : list doc) : option (list entry) :=
  match docs with
  | [] => Some []
  | d :: ds =>
      match encode (content d) with
      | None => None
      | Some v =>
          match embed_docs base (S i) ds with
          | None => None
          | Some es =>
              Some ({| id := base + i; vector := v; document := content d;
                       meta := metadata d |} :: es)
          end
      end
  end.

(** [VectorStore.add_documents]: the outcome and the store after it. *)
Definition add_documents (docs : list doc) (st : store) : result unit * store :=
  match docs with
  | [] => (Ok tt, st)
  | _ =>
      match embed_docs (count st) 0 docs with
      | None => (Raise EmbeddingError, st)
      | Some batch =>
          match collection_add st batch with
          | Ok st' => (Ok tt, st')
          | Raise x => (Raise x, st)
          | OutOfFuel => (OutOfFuel, st)
          end
      end
  end.

(** Insertion by the order [before]. *)
Fixpoint insert_by (before : entry -> entry -> bool) (x : entry) (l : list entry)
    : list entry :=
  match l with
  | [] => [x]
  | y :: l' => if before x y then x :: l else y :: insert_by before x l'
  end.

Definition sort_by (before : entry -> entry -> bool) (l : list entry) : list entry :=
  fold_right (insert_by before) [] l.

(** [collection.query(query_embeddings=[q], n_results=n)]: the documents
    of the first [n] entries in the index's order for [q], which are [n]
    distinct entries of the collection when [n <= count]; [n] below 1 is
    refused. *)
Definition collection_query (st : store) (q : embedding) (n : Z)
    : result (list pystr) :=
  if n <? 1 then Raise ValueError
  else Ok (map document (firstn (Z.to_nat n)
             (sort_by (ranks_before st q) (collection st)))).

(** [VectorStore.search]; it leaves the store unchanged. *)
Definition search (st : store) (query : pystr) (top_k : Z) : result (list pystr) :=
  if Nat.eqb (count st) 0 then Ok []
  else
    match encode query with
    | None => Raise EmbeddingError
    | Some q => collection_query st q (Z.min top_k (Z.of_nat (count st)))
    end.

(** [VectorStore.clear]: the collection is deleted and created again. *)
Definition clear (st : store) : store := empty_store.

(** The stores a run can produce: the freshly created collection, then
    any sequence of [add_documents] and [clear] calls. *)
Inductive reachable : store -> Prop :=
| reach_new : reachable empty_store
| reach_add docs st : reachable st -> reachable (snd (add_documents docs st))
| reach_clear st : reachable st -> reachable (clear st).

End Store.

Arguments id {embedding} _.
Arguments vector {embedding} _.
Arguments document {embedding} _.
Arguments meta {embedding} _.
Arguments collection {embedding} _.

End VectorStore.

(** [LLMHandler.generate_response] ([app/utils/llm_handler.py]): the
    prompt it builds, and the call to the completion API, which is left
    abstract. *)
Module Llm.
Import Chunker.

Definition lit (s : string) : pystr := list_ascii_of_string s.

(** [sep.join(parts)] *)
Definition str_join (sep : pystr) (parts : list pystr) : pystr :=
  match parts with
  | [] => []
  | p :: ps => p ++ List.concat (map (fun q => sep ++ q) ps)
  end.

Definition nl : pystr := [newline].

Definition system_message : pystr :=
  str_join nl
    [lit "You are a helpful AI assistant for Modern Education University (MEU). ";
     lit "Your role is to provide accurate, friendly, and helpful information about MEU's courses, mission, and programs.";
     [];
     lit "Guidelines:";
     lit "- Answer based on the provided context";
     lit "- Be concise but informative";
     lit "- If the context doesn't contain the answer, politely say so";
     lit "- Maintain a professional yet friendly tone";
     lit "- Focus on MEU's certificate courses in tourism"].

Definition no_context : pystr := lit "No relevant context found in documents.".

(** [context_text = "\n\n".join(context) if context else "No relevant ..."] *)
Definition context_text (context : list pystr) : pystr :=
  match context with
  | [] => no_context
  | _ => str_join (nl ++ nl) context
  end.

(** The f-string [user_message]. *)
Definition user_message (query : pystr) (context : list pystr) : pystr :=
  lit "Context from MEU documents:" ++ nl ++ context_text context ++ nl ++ nl
  ++ lit "User Question: " ++ query ++ nl ++ nl
  ++ lit "Please provide a helpful answer based on the context above.".

Section Generate.
(** [client.chat.completions.create(...)] with the system and the user
    message, giving [choices[0].message.content]; [None] when the call
    raises, or when the content is [None] ([answer[:100]] then raises
    inside the same [try]). *)
Variable complete : pystr -> pystr -> option pystr.

(** [generate_response]: [None] when it raises. *)
Definition generate_response (query : pystr) (context : list pystr) : option pystr :=
  complete system_message (user_message query context).
End Generate.

End Llm.

(** [ChatbotService] ([app/services/chatbot.py]) and the [/chat] and
    [/reload] routes ([app/routes.py]). *)
Module Service.
Import Chunker Ingest VectorStore Llm.

Section Svc.
Context {embedding : Type}.
Variable encode : pystr -> option embedding.
Variable ranks_before :
  @store embedding -> embedding -> @entry embedding -> @entry embedding -> bool.
Variable complete : pystr -> pystr -> option pystr.
(** [settings.chunk_size], [settings.chunk_overlap] and
    [settings.top_k_results]. *)
Variable processor : DocumentProcessor.
Variable top_k : Z.
(** The loop fuel, and the file system under [settings.data_dir]:
    whether the directory exists and what [os.walk] lists. *)
Variable fuel : nat.
Variable directory_exists : bool.
Variable walk : list walk_entry.

(** The service's state: its vector store and [_initialized]. *)
Record service := {
  vector_store : @store embedding;
  initialized : bool
}.

(** [load_documents]: the outcome and the store after it. *)
Definition load_documents (st : store) : result unit * store :=
  match process_directory processor fuel directory_exists walk with
  | Ok documents =>
      match documents with
      | [] => (Ok tt, st)
      | _ => add_documents encode documents st
      end
  | Raise x => (Raise x, st)
  | OutOfFuel => (OutOfFuel, st)
  end.

(** [reload_documents]: clear, then load. *)
Definition reload_documents (st : store) : result unit * store :=
  load_documents (clear st).

(** [initialize], given the collection the [VectorStore] constructor
    opens: documents are loaded only into an empty collection, and
    [_initialized] is set only when nothing raised. *)
Definition initialize (svc : service) : result unit * service :=
  if initialized svc then (Ok tt, svc)
  else if Nat.eqb (count (vector_store svc)) 0 then
    match load_documents (vector_store svc) with
    | (Ok tt, st') => (Ok tt, {| vector_store := st'; initialized := true |})
    | (x, st') => (x, {| vector_store := st'; initialized := false |})
    end
  else (Ok tt, {| vector_store := vector_store svc; initialized := true |}).

(** [ChatbotService.chat]; [None] when it raises. [self.top_k] exists
    only once [initialize] has succeeded. *)
Definition chat (svc : service) (message : pystr) : option pystr :=
  if initialized svc then
    match search encode ranks_before (vector_store svc) message top_k with
    | Ok context => generate_response complete message context
    | _ => None
    end
  else None.

(** HTTP answers of the routes. [Http422] is FastAPI's answer when the
    request does not validate against [ChatRequest]. *)
Inductive http_response :=
| Http200 (body : pystr)
| Http400 (detail : pystr)
| Http422
| Http500 (detail : pystr).

Definition empty_message_detail : pystr := lit "Message cannot be empty".
Definition chat_error_detail : pystr :=
  lit "An error occurred while processing your message. Please try again.".

(** The [/chat] route: [ChatRequest] requires [1 <= len(message) <= 1000];
    the message is stripped, an empty one is refused with 400, and any
    exception of [chat] becomes a 500. *)
Definition route_chat (svc : service) (message : pystr) : http_response :=
  if (1 <=? py_len message) && (py_len message <=? 1000) then
    match strip message with
    | [] => Http400 empty_message_detail
    | user_message =>
        match chat svc user_message with
        | Some bot_response => Http200 bot_response
        | None => Http500 chat_error_detail
        end
    end
  else Http422.

End Svc.
End Service.

(** * Facts about the chunker *)
Module ChunkerFacts.
Import Chunker.

Lemma py_norm_bounds i n : 0 <= n -> 0 <= py_norm i n <= n.
Proof. unfold py_norm; destruct (i <? 0) eqn:E; lia. Qed.

Lemma py_slice_length s a b :
  List.length (py_slice s a b)
  = Z.to_nat (Z.max 0 (py_norm b (py_len s) - py_norm a (py_len s))).
Proof.
  unfold py_slice.
  pose proof (py_norm_bounds a (py_len s) ltac:(unfold py_len; lia)).
  pose proof (py_norm_bounds b (py_len s) ltac:(unfold py_len; lia)).
  destruct (py_norm a (py_len s) <? py_norm b (py_len s)) eqn:E.
  - rewrite length_firstn, length_skipn. unfold py_len in *. lia.
  - simpl. lia.
Qed.

(** A window of width [m >= 0] has at most [m] characters, wherever it
    starts (also at a negative start, which Python counts from the end). *)
Lemma py_slice_window_length s a m :
  0 <= m -> py_len (py_slice s a (a + m)) <= m.
Proof.
  intros Hm. unfold py_len at 1. rewrite py_slice_length.
  assert (0 <= py_len s) by (unfold py_len; lia).
  unfold py_norm.
  destruct (a <? 0) eqn:E1; destruct (a + m <? 0) eqn:E2; lia.
Qed.

(** From a non-negative start the slice is the plain substring. *)
Lemma py_slice_nonneg s a b :
  0 <= a -> a < py_len s -> a <= b ->
  py_slice s a b = sub s a (Z.min b (py_len s)).
Proof.
  intros Ha Hn Hb. unfold py_slice, sub, py_norm.
  replace (a <? 0) with false by lia.
  replace (b <? 0) with false by lia.
  destruct (Z.min a (py_len s) <? Z.min b (py_len s)) eqn:E.
  - f_equal; f_equal; lia.
  - replace (Z.to_nat (Z.min b (py_len s) - a)) with 0%nat by lia.
    reflexivity.
Qed.

Lemma py_slice_prefix s k :
  0 < k -> k <= py_len s -> py_slice s 0 k = firstn (Z.to_nat k) s.
Proof.
  intros Hk Hn. unfold py_slice, py_norm. simpl.
  replace (k <? 0) with false by lia.
  replace (Z.min k (py_len s)) with k by lia.
  replace (Z.min 0 (py_len s)) with 0 by (unfold py_len; lia).
  replace (0 <? k) with true by lia.
  rewrite Z.sub_0_r. reflexivity.
Qed.

Lemma sub_firstn s lo k hi :
  0 <= lo -> 0 <= k -> lo + k <= hi ->
  firstn (Z.to_nat k) (sub s lo hi) = sub s lo (lo + k).
Proof.
  intros H1 H2 H3. unfold sub. rewrite firstn_firstn. f_equal. lia.
Qed.

Lemma lstrip_length s : (List.length (lstrip s) <= List.length s)%nat.
Proof. induction s as [|c s IH]; simpl; [lia|]. destruct (isspace c); simpl; lia. Qed.

Lemma strip_length s : (List.length (strip s) <= List.length s)%nat.
Proof.
  unfold strip, rstrip. rewrite length_rev.
  pose proof (lstrip_length (rev (lstrip s))). rewrite length_rev in H.
  pose proof (lstrip_length s). lia.
Qed.

Lemma lstrip_keeps s c : In c s -> isspace c = false -> In c (lstrip s).
Proof.
  induction s as [|x s IH]; simpl; [tauto|].
  intros [<-|Hin] Hsp.
  - rewrite Hsp. left; reflexivity.
  - destruct (isspace x); [auto | right; exact Hin].
Qed.

(** [strip] only removes whitespace. *)
Lemma strip_keeps s c : In c s -> isspace c = false -> In c (strip s).
Proof.
  intros Hin Hsp. unfold strip, rstrip. apply (proj1 (in_rev _ _)).
  apply lstrip_keeps; [|exact Hsp]. apply (proj1 (in_rev _ _)).
  apply lstrip_keeps; assumption.
Qed.

Lemma keep_nonempty_in c : c <> [] -> keep_nonempty c = [c].
Proof. destruct c; [congruence | reflexivity]. Qed.

Lemma keep_nonempty_incl c x : In x (keep_nonempty c) -> x = c.
Proof. destruct c; simpl; [tauto | intros [<-|[]]; reflexivity]. Qed.

Lemma nth_error_sub s lo hi (i : nat) :
  0 <= lo -> lo <= Z.of_nat i -> Z.of_nat i < hi ->
  nth_error (sub s lo hi) (i - Z.to_nat lo) = nth_error s i.
Proof.
  intros H1 H2 H3. unfold sub. rewrite nth_error_firstn.
  replace (Nat.ltb (i - Z.to_nat lo) (Z.to_nat (hi - lo))) with true
    by (symmetry; apply Nat.ltb_lt; lia).
  rewrite nth_error_skipn. f_equal. lia.
Qed.

Lemma rfind_from_spec c s : forall i best, best < i ->
  (forall j, nth_error s j = Some c -> i + Z.of_nat j <= rfind_from c s i best)
  /\ (rfind_from c s i best = best
      \/ exists j, rfind_from c s i best = i + Z.of_nat j /\ nth_error s j = Some c).
Proof.
  induction s as [|x s IH]; intros i best Hb; simpl.
  - split; [intros [|j]; discriminate | left; reflexivity].
  - set (best' := if (x =? c)%char then i else best).
    assert (Hb' : best' < i + 1) by (unfold best'; destruct (x =? c)%char; lia).
    destruct (IH (i + 1) best' Hb') as [Hup Hwit].
    split.
    + intros [|j] Hj; simpl in Hj.
      * injection Hj as ->. unfold best' in *. rewrite (proj2 (Ascii.eqb_eq c c) eq_refl) in *.
        destruct Hwit as [-> | [j [-> _]]]; lia.
      * specialize (Hup j Hj). lia.
    + destruct Hwit as [Hr | [j [Hr Hj]]].
      * rewrite Hr. unfold best'. destruct (Ascii.eqb_spec x c) as [-> | _].
        -- right. exists 0%nat. split; [lia | reflexivity].
        -- left; reflexivity.
      * right. exists (S j). split; [rewrite Hr; lia | exact Hj].
Qed.

(** [rfind] gives the last occurrence, or [-1]. *)
Lemma rfind_spec s c :
  (forall j, nth_error s j = Some c -> Z.of_nat j <= rfind s c)
  /\ -1 <= rfind s c < py_len s
  /\ (rfind s c = -1 \/ nth_error s (Z.to_nat (rfind s c)) = Some c).
Proof.
  unfold rfind. destruct (rfind_from_spec c s 0 (-1) ltac:(lia)) as [Hup Hwit].
  split; [intros j Hj; specialize (Hup j Hj); lia|].
  destruct Hwit as [Hr | [j [Hr Hj]]].
  - rewrite Hr. split; [unfold py_len; lia | left; reflexivity].
  - rewrite Hr. assert (Hlt : (j < List.length s)%nat)
      by (apply nth_error_Some; congruence).
    split; [unfold py_len; lia | right]. rewrite Z.add_0_l, Nat2Z.id. exact Hj.
Qed.

(** The break point of [chunk_text] is the last break character of the
    window, or [-1] when it has none. *)
Lemma break_point_spec w :
  let bp := Z.max (Z.max (rfind w period) (rfind w newline)) (rfind w space) in
  (forall j c, nth_error w j = Some c -> is_break_char c = true -> Z.of_nat j <= bp)
  /\ -1 <= bp < py_len w
  /\ (bp = -1 \/ exists c, nth_error w (Z.to_nat bp) = Some c /\ is_break_char c = true).
Proof.
  intros bp.
  destruct (rfind_spec w period) as [U1 [B1 W1]].
  destruct (rfind_spec w newline) as [U2 [B2 W2]].
  destruct (rfind_spec w space) as [U3 [B3 W3]].
  split; [|split; [unfold bp; lia|]].
  - intros j c Hj Hc. unfold is_break_char in Hc.
    destruct (Ascii.eqb_spec c period) as [->|_];
      [specialize (U1 j Hj); unfold bp; lia|].
    destruct (Ascii.eqb_spec c newline) as [->|_];
      [specialize (U2 j Hj); unfold bp; lia|].
    destruct (Ascii.eqb_spec c space) as [->|_];
      [specialize (U3 j Hj); unfold bp; lia | discriminate].
  - assert (Hcase : bp = rfind w period \/ bp = rfind w newline \/ bp = rfind w space)
      by (unfold bp; lia).
    destruct Hcase as [H|[H|H]]; rewrite H.
    + destruct W1 as [E|E]; [left; exact E | right; exists period; split; [exact E|reflexivity]].
    + destruct W2 as [E|E]; [left; exact E | right; exists newline; split; [exact E|reflexivity]].
    + destruct W3 as [E|E]; [left; exact E | right; exists space; split; [exact E|reflexivity]].
Qed.

(** The two ways one iteration of [chunk_text] can end: with the full
    window, or cut just after a break point past the window's middle. *)
Lemma chunk_step_cases self text start :
  0 < chunk_size self ->
  let m := chunk_size self in
  let w := py_slice text start (start + m) in
  chunk_step self text start = (keep_nonempty (strip w), start + m - chunk_overlap self)
  \/ exists bp, 0 <= bp /\ bp < py_len w /\ m < 2 * bp /\ start + m < py_len text /\
     chunk_step self text start
     = (keep_nonempty (strip (firstn (Z.to_nat (bp + 1)) w)),
        start + bp + 1 - chunk_overlap self).
Proof.
  intros Hm m w. unfold chunk_step. fold m. fold w.
  destruct (start + m <? py_len text) eqn:Hend; [|left; reflexivity].
  destruct (break_point_spec w) as [_ [Hb _]].
  set (bp := Z.max (Z.max (rfind w period) (rfind w newline)) (rfind w space)) in *.
  destruct (m <? 2 * bp) eqn:Hmid; [|left; reflexivity].
  right. exists bp. repeat split; try lia.
  rewrite py_slice_prefix by lia. reflexivity.
Qed.

Lemma chunk_step_lengths self text start :
  0 < chunk_size self ->
  Forall (fun c => py_len c <= chunk_size self) (fst (chunk_step self text start)).
Proof.
  intros Hm.
  assert (Hw := py_slice_window_length text start (chunk_size self) ltac:(lia)).
  apply Forall_forall. intros x Hx.
  destruct (chunk_step_cases self text start Hm) as [E | [bp [_ [_ [_ [_ E]]]]]];
    rewrite E in Hx; simpl in Hx; apply keep_nonempty_incl in Hx; subst x;
    unfold py_len in *.
  - pose proof (strip_length (py_slice text start (start + chunk_size self))). lia.
  - pose proof (strip_length (firstn (Z.to_nat (bp + 1))
                                (py_slice text start (start + chunk_size self)))).
    rewrite length_firstn in *. lia.
Qed.

Lemma chunk_loop_lengths self text fuel : forall start acc cs,
  0 < chunk_size self ->
  Forall (fun c => py_len c <= chunk_size self) acc ->
  chunk_loop self text fuel start acc = Some cs ->
  Forall (fun c => py_len c <= chunk_size self) cs.
Proof.
  induction fuel as [|fuel IH]; intros start acc cs Hm Hacc Hrun; simpl in Hrun.
  - destruct (start <? py_len text); [discriminate | injection Hrun as <-; exact Hacc].
  - destruct (start <? py_len text); [|injection Hrun as <-; exact Hacc].
    pose proof (chunk_step_lengths self text start Hm) as Hstep.
    destruct (chunk_step self text start) as [out start'] eqn:E.
    apply (IH start' (acc ++ out)); [exact Hm | | exact Hrun].
    apply Forall_app; split; assumption.
Qed.

(** Claim C9: for [chunk_size > 0], every chunk [chunk_text] returns has
    at most [chunk_size] characters, whatever the overlap and whether or
    not the window held a break character. *)
Theorem chunk_text_chunk_length self fuel text cs :
  0 < chunk_size self ->
  chunk_text self fuel text = Some cs ->
  Forall (fun c => py_len c <= chunk_size self) cs.
Proof.
  intros Hm Hrun. exact (chunk_loop_lengths self text fuel 0 [] cs Hm (Forall_nil _) Hrun).
Qed.

Lemma chunk_text_chunk_length_witness :
  0 < chunk_size {| chunk_size := 4; chunk_overlap := 1 |}
  /\ Forall (fun c => py_len c <= 4)
       [list_ascii_of_string "abcd"; list_ascii_of_string "defg"; list_ascii_of_string "g"].
Proof.
  split; [simpl; lia|].
  apply (chunk_text_chunk_length {| chunk_size := 4; chunk_overlap := 1 |} 10
           (list_ascii_of_string "abcdefg")); [simpl; lia | vm_compute; reflexivity].
Defined.

(** With an overlap of at most half the window plus one, every iteration
    moves [start] forward. *)
Lemma chunk_step_progress self text start :
  0 < chunk_size self -> 0 <= chunk_overlap self ->
  chunk_overlap self < chunk_size self ->
  chunk_overlap self <= chunk_size self / 2 + 1 ->
  start + 1 <= snd (chunk_step self text start).
Proof.
  intros Hm H0 Hlt Hhalf.
  destruct (chunk_step_cases self text start Hm) as [E | [bp [Hbp [_ [Hmid [_ E]]]]]];
    rewrite E; simpl.
  - lia.
  - assert (chunk_size self / 2 < bp).
    { apply Z.div_lt_upper_bound; lia. }
    lia.
Qed.

Lemma chunk_loop_terminates self text fuel : forall start acc,
  0 < chunk_size self -> 0 <= chunk_overlap self ->
  chunk_overlap self < chunk_size self ->
  chunk_overlap self <= chunk_size self / 2 + 1 ->
  py_len text - start <= Z.of_nat fuel ->
  exists cs, chunk_loop self text fuel start acc = Some cs.
Proof.
  induction fuel as [|fuel IH]; intros start acc Hm H0 Hlt Hhalf Hfuel; simpl.
  - replace (start <? py_len text) with false by lia. eexists; reflexivity.
  - destruct (start <? py_len text); [|eexists; reflexivity].
    pose proof (chunk_step_progress self text start Hm H0 Hlt Hhalf) as Hp.
    destruct (chunk_step self text start) as [out start'] eqn:E. simpl in Hp.
    apply IH; lia.
Qed.

(** Claim C1, as amended: when [0 <= chunk_overlap < chunk_size] and the
    overlap is at most [chunk_size / 2 + 1] (integer division), the scan
    of [chunk_text] ends within [len(text)] iterations. *)
Theorem chunk_text_terminates self text :
  0 < chunk_size self -> 0 <= chunk_overlap self ->
  chunk_overlap self < chunk_size self ->
  chunk_overlap self <= chunk_size self / 2 + 1 ->
  exists cs, chunk_text self (List.length text) text = Some cs.
Proof.
  intros Hm H0 Hlt Hhalf. apply chunk_loop_terminates; try assumption.
  unfold py_len. lia.
Qed.

Lemma chunk_text_terminates_witness :
  exists cs, chunk_text {| chunk_size := 500; chunk_overlap := 50 |}
               (List.length (list_ascii_of_string "One. Two three."))
               (list_ascii_of_string "One. Two three.") = Some cs.
Proof.
  apply chunk_text_terminates; simpl; lia.
Defined.

Lemma stall_loop fuel : forall acc,
  chunk_loop {| chunk_size := 10; chunk_overlap := 7 |}
    (list_ascii_of_string "aaaaaa bbbbbbbbbb") fuel 0 acc = None.
Proof.
  induction fuel as [|fuel IH]; intros acc; [reflexivity|].
  cbn [chunk_loop].
  replace (chunk_step {| chunk_size := 10; chunk_overlap := 7 |}
             (list_ascii_of_string "aaaaaa bbbbbbbbbb") 0)
    with ([list_ascii_of_string "aaaaaa"], 0) by (vm_compute; reflexivity).
  replace (0 <? py_len (list_ascii_of_string "aaaaaa bbbbbbbbbb")) with true
    by (vm_compute; reflexivity).
  apply IH.
Qed.

(** Claim C1 fails: with [chunk_size = 10] and [chunk_overlap = 7]
    ([0 <= 7 < 10]) the text ["aaaaaa bbbbbbbbbb"] is cut after the space
    at index 6, the next [start] is [7 - 7 = 0] again, and the loop never
    ends, whatever the fuel. *)
Lemma chunk_text_stalls_cex :
  0 <= chunk_overlap {| chunk_size := 10; chunk_overlap := 7 |} <
       chunk_size {| chunk_size := 10; chunk_overlap := 7 |}
  /\ forall fuel,
       chunk_text {| chunk_size := 10; chunk_overlap := 7 |} fuel
         (list_ascii_of_string "aaaaaa bbbbbbbbbb") = None.
Proof.
  split; [simpl; lia|]. intros fuel. apply stall_loop.
Qed.

(** Claim C3, as amended: when the window [text[start:start+chunk_size]]
    ends before the text does, the break point is the last character of
    the window that is a period, a newline or a space (whichever kind it
    is: the code takes the maximum of the three [rfind]s, with no priority
    between them). The window is cut just after it exactly when its index
    is above [chunk_size * 0.5]; otherwise the full window is kept. *)
Theorem chunk_step_break_point self text start :
  0 < chunk_size self ->
  start + chunk_size self < py_len text ->
  let m := chunk_size self in
  let w := py_slice text start (start + m) in
  (exists bp, 0 <= bp
     /\ (exists c, nth_error w (Z.to_nat bp) = Some c /\ is_break_char c = true)
     /\ (forall j c, nth_error w j = Some c -> is_break_char c = true -> Z.of_nat j <= bp)
     /\ m < 2 * bp
     /\ chunk_step self text start
        = (keep_nonempty (strip (firstn (Z.to_nat (bp + 1)) w)),
           start + bp + 1 - chunk_overlap self))
  \/ ((forall j c, nth_error w j = Some c -> is_break_char c = true -> 2 * Z.of_nat j <= m)
      /\ chunk_step self text start
         = (keep_nonempty (strip w), start + m - chunk_overlap self)).
Proof.
  intros Hm Hend m w. unfold chunk_step. fold m. fold w.
  replace (start + m <? py_len text) with true by lia.
  destruct (break_point_spec w) as [Hup [Hb Hwit]].
  set (bp := Z.max (Z.max (rfind w period) (rfind w newline)) (rfind w space)) in *.
  destruct (m <? 2 * bp) eqn:Hmid.
  - left. exists bp.
    destruct Hwit as [E | Hc]; [lia|].
    repeat split; try lia; try assumption.
    rewrite py_slice_prefix by lia. reflexivity.
  - right. split; [|reflexivity].
    intros j c Hj Hc. specialize (Hup j c Hj Hc). lia.
Qed.

Lemma chunk_step_break_point_witness :
  0 < 10 /\ 0 + 10 < py_len (list_ascii_of_string "aaaaaa.a bcccc")
  /\ ((exists bp, 0 <= bp
     /\ (exists c, nth_error (py_slice (list_ascii_of_string "aaaaaa.a bcccc") 0 (0 + 10))
                     (Z.to_nat bp) = Some c /\ is_break_char c = true)
     /\ (forall j c, nth_error (py_slice (list_ascii_of_string "aaaaaa.a bcccc") 0 (0 + 10)) j
                     = Some c -> is_break_char c = true -> Z.of_nat j <= bp)
     /\ 10 < 2 * bp
     /\ chunk_step {| chunk_size := 10; chunk_overlap := 2 |}
          (list_ascii_of_string "aaaaaa.a bcccc") 0
        = (keep_nonempty (strip (firstn (Z.to_nat (bp + 1))
             (py_slice (list_ascii_of_string "aaaaaa.a bcccc") 0 (0 + 10)))),
           0 + bp + 1 - 2))
  \/ ((forall j c, nth_error (py_slice (list_ascii_of_string "aaaaaa.a bcccc") 0 (0 + 10)) j
                    = Some c -> is_break_char c = true -> 2 * Z.of_nat j <= 10)
      /\ chunk_step {| chunk_size := 10; chunk_overlap := 2 |}
           (list_ascii_of_string "aaaaaa.a bcccc") 0
         = (keep_nonempty (strip (py_slice (list_ascii_of_string "aaaaaa.a bcccc") 0 (0 + 10))),
            0 + 10 - 2))).
Proof.
  split; [lia|]. split; [vm_compute; reflexivity|].
  exact (chunk_step_break_point {| chunk_size := 10; chunk_overlap := 2 |}
           (list_ascii_of_string "aaaaaa.a bcccc") 0
           ltac:(simpl; lia) ltac:(vm_compute; reflexivity)).
Defined.

(** Claim C3 fails in its priority reading: in the window ["aaaaaa.a b"]
    of ["aaaaaa.a bcccc"] (chunk size 10) the last period is at index 6,
    past the middle ([10 < 2 * 6]), yet [chunk_text] cuts after the space
    at index 8, emitting ["aaaaaa.a"] rather than ["aaaaaa."]. *)
Lemma chunk_step_priority_cex :
  rfind (py_slice (list_ascii_of_string "aaaaaa.a bcccc") 0 10) period = 6
  /\ 10 < 2 * 6
  /\ chunk_step {| chunk_size := 10; chunk_overlap := 2 |}
       (list_ascii_of_string "aaaaaa.a bcccc") 0
     = ([list_ascii_of_string "aaaaaa.a"], 7)
  /\ fst (chunk_step {| chunk_size := 10; chunk_overlap := 2 |}
            (list_ascii_of_string "aaaaaa.a bcccc") 0)
     <> [strip (firstn 7 (py_slice (list_ascii_of_string "aaaaaa.a bcccc") 0 10))].
Proof.
  split; [vm_compute; reflexivity|]. split; [lia|].
  split; [vm_compute; reflexivity|]. vm_compute. discriminate.
Qed.

(** Claim C4 (code defect): a text shorter than [chunk_size] is not always
    returned as one chunk. With the default configuration (500, 50) a text
    of 480 letters gives two chunks: after the first window [start]
    becomes [500 - 50 = 450 < 480], and the loop emits the last 30 letters
    again. The empty text does give no chunk. *)
Theorem chunk_text_short_text_two_chunks :
  py_len (repeat "a"%char 480) < chunk_size {| chunk_size := 500; chunk_overlap := 50 |}
  /\ strip (repeat "a"%char 480) = repeat "a"%char 480
  /\ chunk_text {| chunk_size := 500; chunk_overlap := 50 |} 480 (repeat "a"%char 480)
     = Some [repeat "a"%char 480; repeat "a"%char 30]
  /\ (forall self fuel, chunk_text self fuel [] = Some []).
Proof.
  split; [vm_compute; reflexivity|]. split; [vm_compute; reflexivity|].
  split; [vm_compute; reflexivity|].
  intros self [|fuel]; reflexivity.
Qed.

(** A non-whitespace character inside a window survives [strip], so the
    stripped window is not empty. *)
Lemma window_keeps text lo hi (i : nat) ch :
  0 <= lo -> lo <= Z.of_nat i -> Z.of_nat i < hi ->
  nth_error text i = Some ch -> isspace ch = false ->
  In ch (strip (sub text lo hi)) /\ strip (sub text lo hi) <> [].
Proof.
  intros H1 H2 H3 Hn Hs.
  assert (Hin : In ch (sub text lo hi)).
  { apply (nth_error_In _ (i - Z.to_nat lo)). rewrite nth_error_sub by assumption. exact Hn. }
  pose proof (strip_keeps _ _ Hin Hs) as Hk. split; [exact Hk|].
  intros E. rewrite E in Hk. exact Hk.
Qed.

(** One iteration keeps the coverage invariant of [chunk_text]: every
    non-whitespace character before [min P len(text)] lies in an emitted
    chunk, [start <= P], and a negative [start] (Python then slices from
    the end) only occurs when [chunk_size < 2 * overlap] and
    [chunk_size < 2 * P]. *)
Lemma chunk_step_covers self text start P acc :
  0 < chunk_size self -> 0 <= chunk_overlap self ->
  chunk_overlap self < chunk_size self -> start < py_len text ->
  0 <= P -> start <= P ->
  (start < 0 -> chunk_size self < 2 * chunk_overlap self /\ chunk_size self < 2 * P) ->
  (forall (i : nat) ch, Z.of_nat i < Z.min P (py_len text) ->
     nth_error text i = Some ch -> isspace ch = false ->
     exists c lo hi, In c acc /\ 0 <= lo <= Z.of_nat i /\ Z.of_nat i < hi
       /\ hi <= py_len text /\ c = strip (sub text lo hi) /\ In ch c) ->
  exists P', 0 <= P' /\ snd (chunk_step self text start) <= P'
   /\ (snd (chunk_step self text start) < 0 ->
       chunk_size self < 2 * chunk_overlap self /\ chunk_size self < 2 * P')
   /\ (forall (i : nat) ch, Z.of_nat i < Z.min P' (py_len text) ->
       nth_error text i = Some ch -> isspace ch = false ->
       exists c lo hi, In c (acc ++ fst (chunk_step self text start))
         /\ 0 <= lo <= Z.of_nat i /\ Z.of_nat i < hi
         /\ hi <= py_len text /\ c = strip (sub text lo hi) /\ In ch c).
Proof.
  intros Hm H0 Hlt Hn HP Hs Hneg Hcov.
  assert (Hlift : forall out (i : nat) ch, Z.of_nat i < Z.min P (py_len text) ->
     nth_error text i = Some ch -> isspace ch = false ->
     exists c lo hi, In c (acc ++ out) /\ 0 <= lo <= Z.of_nat i /\ Z.of_nat i < hi
       /\ hi <= py_len text /\ c = strip (sub text lo hi) /\ In ch c).
  { intros out i ch Hi Hc Hsp. destruct (Hcov i ch Hi Hc Hsp) as (c & lo & hi & H).
    exists c, lo, hi. split; [apply in_or_app; left; apply H | apply H]. }
  assert (Hw := py_slice_window_length text start (chunk_size self) ltac:(lia)).
  destruct (chunk_step_cases self text start Hm)
    as [E | [bp [Hbp [Hbpw [Hmid [Hend E]]]]]]; rewrite E; cbn [fst snd];
    set (m := chunk_size self) in *; set (ov := chunk_overlap self) in *.
  - destruct (Z_lt_le_dec start 0) as [Hst | Hst].
    + exists P. specialize (Hneg Hst). split; [lia|]. split; [lia|]. split; [lia|].
      apply Hlift.
    + exists (Z.max P (start + m)). split; [lia|]. split; [lia|]. split; [lia|].
      intros i ch Hi Hc Hsp.
      destruct (Z_lt_le_dec (Z.of_nat i) (Z.min P (py_len text))) as [Hold | Hnew];
        [apply Hlift; assumption|].
      rewrite (py_slice_nonneg text start (start + m)) by lia.
      destruct (window_keeps text start (Z.min (start + m) (py_len text)) i ch)
        as [Hin Hne]; try lia; try assumption.
      exists (strip (sub text start (Z.min (start + m) (py_len text)))), start,
        (Z.min (start + m) (py_len text)).
      split; [|repeat split; try lia; assumption].
      apply in_or_app; right. rewrite keep_nonempty_in by exact Hne. left; reflexivity.
  - destruct (Z_lt_le_dec start 0) as [Hst | Hst].
    + exists P. specialize (Hneg Hst). unfold py_len in Hbpw, Hw.
      split; [lia|]. split; [lia|]. split; [lia|].
      apply Hlift.
    + exists (Z.max P (start + bp + 1)). unfold py_len in Hbpw, Hw.
      split; [lia|]. split; [lia|]. split; [lia|].
      intros i ch Hi Hc Hsp.
      destruct (Z_lt_le_dec (Z.of_nat i) (Z.min P (py_len text))) as [Hold | Hnew];
        [apply Hlift; assumption|].
      rewrite (py_slice_nonneg text start (start + m)) by lia.
      replace (Z.min (start + m) (py_len text)) with (start + m) by lia.
      rewrite (sub_firstn text start (bp + 1) (start + m)) by lia.
      destruct (window_keeps text start (start + (bp + 1)) i ch)
        as [Hin Hne]; try lia; try assumption.
      exists (strip (sub text start (start + (bp + 1)))), start, (start + (bp + 1)).
      split; [|repeat split; try lia; assumption].
      apply in_or_app; right. rewrite keep_nonempty_in by exact Hne. left; reflexivity.
Qed.

Lemma chunk_loop_covers self text fuel : forall start P acc cs,
  0 < chunk_size self -> 0 <= chunk_overlap self ->
  chunk_overlap self < chunk_size self ->
  0 <= P -> start <= P ->
  (start < 0 -> chunk_size self < 2 * chunk_overlap self /\ chunk_size self < 2 * P) ->
  (forall (i : nat) ch, Z.of_nat i < Z.min P (py_len text) ->
     nth_error text i = Some ch -> isspace ch = false ->
     exists c lo hi, In c acc /\ 0 <= lo <= Z.of_nat i /\ Z.of_nat i < hi
       /\ hi <= py_len text /\ c = strip (sub text lo hi) /\ In ch c) ->
  chunk_loop self text fuel start acc = Some cs ->
  forall (i : nat) ch, nth_error text i = Some ch -> isspace ch = false ->
  exists c lo hi, In c cs /\ 0 <= lo <= Z.of_nat i /\ Z.of_nat i < hi
    /\ hi <= py_len text /\ c = strip (sub text lo hi) /\ In ch c.
Proof.
  induction fuel as [|fuel IH]; intros start P acc cs Hm H0 Hlt HP Hs Hneg Hcov Hrun i ch Hc Hsp;
    simpl in Hrun.
  - destruct (start <? py_len text) eqn:Hn; [discriminate|]. injection Hrun as <-.
    apply Hcov; [|assumption..].
    assert (Z.of_nat i < py_len text)
      by (unfold py_len; apply inj_lt, nth_error_Some; congruence).
    lia.
  - destruct (start <? py_len text) eqn:Hn.
    + destruct (chunk_step_covers self text start P acc Hm H0 Hlt ltac:(lia) HP Hs Hneg Hcov)
        as (P' & HP' & Hs' & Hneg' & Hcov').
      destruct (chunk_step self text start) as [out start'] eqn:E. cbn [fst snd] in *.
      exact (IH start' P' (acc ++ out) cs Hm H0 Hlt HP' Hs' Hneg' Hcov' Hrun i ch Hc Hsp).
    + injection Hrun as <-.
      apply Hcov; [|assumption..].
      assert (Z.of_nat i < py_len text)
        by (unfold py_len; apply inj_lt, nth_error_Some; congruence).
      lia.
Qed.

(** Claim C7: for [chunk_size > 0] and [0 <= chunk_overlap < chunk_size],
    every non-whitespace character of the text is in the concatenation of
    the returned chunks; more precisely it lies in a window [text[lo:hi]]
    whose stripped form is one of the chunks. *)
Theorem chunk_text_keeps_non_whitespace self fuel text cs (i : nat) ch :
  0 < chunk_size self -> 0 <= chunk_overlap self ->
  chunk_overlap self < chunk_size self ->
  chunk_text self fuel text = Some cs ->
  nth_error text i = Some ch -> isspace ch = false ->
  In ch (List.concat cs)
  /\ exists c lo hi, In c cs /\ 0 <= lo <= Z.of_nat i /\ Z.of_nat i < hi
       /\ hi <= py_len text /\ c = strip (sub text lo hi) /\ In ch c.
Proof.
  intros Hm H0 Hlt Hrun Hc Hsp.
  assert (H := chunk_loop_covers self text fuel 0 0 [] cs Hm H0 Hlt
                 ltac:(lia) ltac:(lia) ltac:(lia)
                 ltac:(intros i' ch' Hi'; unfold py_len in Hi'; lia)
                 Hrun i ch Hc Hsp).
  split; [|exact H].
  destruct H as (c & lo & hi & Hin & _ & _ & _ & _ & Hch).
  apply in_concat. exists c. split; assumption.
Qed.

Lemma chunk_text_keeps_non_whitespace_witness :
  In "t"%char (List.concat [list_ascii_of_string "One. Two"; list_ascii_of_string "three."])
  /\ exists c lo hi, In c [list_ascii_of_string "One. Two"; list_ascii_of_string "three."]
       /\ 0 <= lo <= Z.of_nat 5 /\ Z.of_nat 5 < hi
       /\ hi <= py_len (list_ascii_of_string "One. Two three.")
       /\ c = strip (sub (list_ascii_of_string "One. Two three.") lo hi) /\ In "T"%char c.
Proof.
  split.
  - apply (chunk_text_keeps_non_whitespace {| chunk_size := 10; chunk_overlap := 0 |} 20
             (list_ascii_of_string "One. Two three.") _ 9 "t"%char);
      [simpl; lia | simpl; lia | simpl; lia | vm_compute; reflexivity
      | vm_compute; reflexivity | vm_compute; reflexivity].
  - apply (chunk_text_keeps_non_whitespace {| chunk_size := 10; chunk_overlap := 0 |} 20
             (list_ascii_of_string "One. Two three.") _ 5 "T"%char);
      [simpl; lia | simpl; lia | simpl; lia | vm_compute; reflexivity
      | vm_compute; reflexivity | vm_compute; reflexivity].
Defined.

End ChunkerFacts.

(** * Facts about directory ingestion *)
Module IngestFacts.
Import Chunker Ingest.

Lemma pystr_eqb_eq a : forall b, pystr_eqb a b = true <-> a = b.
Proof.
  induction a as [|x a IH]; intros [|y b]; simpl; try (split; congruence).
  rewrite andb_true_iff, Ascii.eqb_eq, IH. split; [intros [-> ->]; reflexivity|].
  intros E; injection E as -> ->; split; reflexivity.
Qed.

Lemma process_files_app self fuel pre : forall post acc,
  process_files self fuel (pre ++ post) acc
  = match process_files self fuel pre acc with
    | Ok acc' => process_files self fuel post acc'
    | Raise x => Raise x
    | OutOfFuel => OutOfFuel
    end.
Proof.
  induction pre as [|e pre IH]; intros post acc; simpl; [reflexivity|].
  destruct (process_file self fuel e); [apply IH | reflexivity | reflexivity].
Qed.

(** Claim C10: a file whose content loads but is empty or only whitespace
    is skipped: it adds no document, and [process_directory] over the
    walk gives what it gives over the walk without that file. *)
Theorem process_directory_skips_blank self fuel directory_exists pre e post content :
  load_file e = Some content ->
  strip content = [] ->
  process_file self fuel e = Ok []
  /\ process_directory self fuel directory_exists (pre ++ e :: post)
     = process_directory self fuel directory_exists (pre ++ post).
Proof.
  intros Hload Hblank.
  assert (He : process_file self fuel e = Ok []).
  { unfold process_file. destruct (starts_with_dot (file e)); [reflexivity|].
    rewrite Hload, Hblank. reflexivity. }
  split; [exact He|].
  unfold process_directory. destruct directory_exists; [|reflexivity].
  rewrite !process_files_app.
  destruct (process_files self fuel pre []) as [acc| |]; [|reflexivity|reflexivity].
  simpl. rewrite He, app_nil_r. reflexivity.
Qed.

Lemma process_directory_skips_blank_witness :
  process_file {| chunk_size := 500; chunk_overlap := 50 |} 100
    {| root := list_ascii_of_string "data"; file := list_ascii_of_string "empty.txt";
       disk := Some (list_ascii_of_string "  ") |} = Ok []
  /\ process_directory {| chunk_size := 500; chunk_overlap := 50 |} 100 true
       ([] ++ {| root := list_ascii_of_string "data"; file := list_ascii_of_string "empty.txt";
                 disk := Some (list_ascii_of_string "  ") |}
           :: [{| root := list_ascii_of_string "data"; file := list_ascii_of_string "a.txt";
                  disk := Some (list_ascii_of_string "Hello.") |}])
     = process_directory {| chunk_size := 500; chunk_overlap := 50 |} 100 true
       ([] ++ [{| root := list_ascii_of_string "data"; file := list_ascii_of_string "a.txt";
                  disk := Some (list_ascii_of_string "Hello.") |}]).
Proof.
  apply (process_directory_skips_blank _ _ _ _ _ _ (list_ascii_of_string "  "));
    vm_compute; reflexivity.
Defined.

Lemma enumerate_docs_meta name path total : forall chunks i,
  Forall (fun d => exists md, metadata d = Some md
                   /\ total_chunks md = total /\ file_path md = path)
         (enumerate_docs name path total i chunks)
  /\ map (fun d => option_map chunk_index (metadata d)) (enumerate_docs name path total i chunks)
     = map (fun k => Some (Z.of_nat k)) (seq i (List.length chunks))
  /\ List.length (enumerate_docs name path total i chunks) = List.length chunks.
Proof.
  induction chunks as [|c cs IH]; intros i; simpl.
  - repeat split; constructor.
  - destruct (IH (S i)) as [H1 [H2 H3]].
    split; [constructor; [eexists; repeat split | exact H1]|].
    split; [f_equal; exact H2 | f_equal; exact H3].
Qed.

(** What one file contributes: documents that all name its path, with
    [chunk_index] [0, 1, ...] and [total_chunks] their number. *)
Lemma process_file_docs self fuel e ds :
  process_file self fuel e = Ok ds ->
  Forall (fun d => exists md, metadata d = Some md
                   /\ total_chunks md = Z.of_nat (List.length ds)
                   /\ file_path md = entry_path e) ds
  /\ map (fun d => option_map chunk_index (metadata d)) ds
     = map (fun k => Some (Z.of_nat k)) (seq 0 (List.length ds)).
Proof.
  unfold process_file. intros H.
  destruct (starts_with_dot (file e)); [injection H as <-; split; constructor|].
  destruct (load_file e) as [content|]; [|injection H as <-; split; constructor].
  destruct (strip content) as [|x xs]; [injection H as <-; split; constructor|].
  destruct (chunk_text self fuel content) as [chunks|]; [|discriminate].
  injection H as <-.
  destruct (enumerate_docs_meta (file e) (entry_path e) (Z.of_nat (List.length chunks)) chunks 0)
    as [H1 [H2 H3]].
  rewrite H3. split; assumption.
Qed.

Lemma process_files_split self fuel walk : forall acc docs,
  process_files self fuel walk acc = Ok docs ->
  exists dss, Forall2 (fun e ds => process_file self fuel e = Ok ds) walk dss
              /\ docs = acc ++ List.concat dss.
Proof.
  induction walk as [|e walk IH]; intros acc docs H; simpl in H.
  - injection H as <-. exists []. split; [constructor | rewrite app_nil_r; reflexivity].
  - destruct (process_file self fuel e) as [ds| |] eqn:E; try discriminate.
    destruct (IH _ _ H) as [dss [Hf ->]].
    exists (ds :: dss). split; [constructor; assumption|].
    simpl. rewrite app_assoc. reflexivity.
Qed.

Lemma docs_of_path_app p l1 l2 :
  docs_of_path p (l1 ++ l2) = docs_of_path p l1 ++ docs_of_path p l2.
Proof. unfold docs_of_path. apply filter_app. Qed.

Lemma docs_of_path_none p q ds :
  Forall (fun d => exists md, metadata d = Some md /\ file_path md = q) ds ->
  q <> p -> docs_of_path p ds = [].
Proof.
  intros Hf Hne. induction Hf as [|d ds [md [Hmd Hq]] Hf IH]; [reflexivity|].
  unfold docs_of_path in *. simpl. rewrite Hmd.
  destruct (pystr_eqb (file_path md) p) eqn:E.
  - apply pystr_eqb_eq in E. congruence.
  - exact IH.
Qed.

Lemma docs_of_path_all p ds :
  Forall (fun d => exists md, metadata d = Some md /\ file_path md = p) ds ->
  docs_of_path p ds = ds.
Proof.
  intros Hf. induction Hf as [|d ds [md [Hmd Hq]] Hf IH]; [reflexivity|].
  unfold docs_of_path in *. simpl. rewrite Hmd.
  replace (pystr_eqb (file_path md) p) with true by (symmetry; apply pystr_eqb_eq; exact Hq).
  f_equal. exact IH.
Qed.

Lemma process_file_paths self fuel e ds :
  process_file self fuel e = Ok ds ->
  Forall (fun d => exists md, metadata d = Some md /\ file_path md = entry_path e) ds.
Proof.
  intros H. destruct (process_file_docs self fuel e ds H) as [Hf _].
  eapply Forall_impl; [|exact Hf]. intros d [md [H1 [_ H3]]]. exists md. split; assumption.
Qed.

Lemma docs_of_path_other self fuel p : forall walk dss,
  Forall2 (fun e ds => process_file self fuel e = Ok ds) walk dss ->
  ~ In p (map entry_path walk) ->
  docs_of_path p (List.concat dss) = [].
Proof.
  intros walk dss Hf. induction Hf as [|e ds walk dss Hd Hf IH]; intros Hp; [reflexivity|].
  simpl. rewrite docs_of_path_app, IH by (intros Hin; apply Hp; right; exact Hin).
  rewrite app_nil_r.
  apply (docs_of_path_none p (entry_path e)); [apply (process_file_paths self fuel); exact Hd|].
  intros E. apply Hp. left. exact E.
Qed.

Lemma docs_of_path_file self fuel e : forall walk dss,
  Forall2 (fun e ds => process_file self fuel e = Ok ds) walk dss ->
  NoDup (map entry_path walk) -> In e walk ->
  exists ds, process_file self fuel e = Ok ds
             /\ docs_of_path (entry_path e) (List.concat dss) = ds.
Proof.
  intros walk dss Hf. induction Hf as [|e' ds walk dss Hd Hf IH]; intros Hnd Hin; [destruct Hin|].
  simpl in Hnd. inversion Hnd as [|x l Hnotin Hnd']; subst.
  simpl. rewrite docs_of_path_app.
  destruct Hin as [<- | Hin].
  - exists ds. split; [exact Hd|].
    rewrite (docs_of_path_other self fuel (entry_path e') walk dss Hf Hnotin), app_nil_r.
    apply docs_of_path_all. apply (process_file_paths self fuel). exact Hd.
  - destruct (IH Hnd' Hin) as [ds' [Hd' Hds']].
    exists ds'. split; [exact Hd'|]. rewrite Hds'.
    rewrite (docs_of_path_none (entry_path e) (entry_path e') ds); [reflexivity| |].
    + apply (process_file_paths self fuel). exact Hd.
    + intros E. apply Hnotin. rewrite E. apply in_map. exact Hin.
Qed.

(** Claim C6: in the output of [process_directory], the documents of one
    processed file (those whose metadata names its path; [os.walk] gives
    each file one path) all carry [total_chunks] equal to their number,
    and their [chunk_index] values are [0, 1, ..., total_chunks - 1] in
    order. *)
Theorem process_directory_chunk_indices self fuel directory_exists walk docs e :
  process_directory self fuel directory_exists walk = Ok docs ->
  In e walk -> NoDup (map entry_path walk) ->
  Forall (fun d => exists md, metadata d = Some md
            /\ total_chunks md = Z.of_nat (List.length (docs_of_path (entry_path e) docs)))
         (docs_of_path (entry_path e) docs)
  /\ map (fun d => option_map chunk_index (metadata d)) (docs_of_path (entry_path e) docs)
     = map (fun k => Some (Z.of_nat k))
           (seq 0 (List.length (docs_of_path (entry_path e) docs))).
Proof.
  intros Hrun Hin Hnd. unfold process_directory in Hrun.
  destruct directory_exists; [|discriminate].
  destruct (process_files_split self fuel walk [] docs Hrun) as [dss [Hf ->]].
  rewrite app_nil_l.
  destruct (docs_of_path_file self fuel e walk dss Hf Hnd Hin) as [ds [Hd ->]].
  destruct (process_file_docs self fuel e ds Hd) as [Hmeta Hidx].
  split; [|exact Hidx].
  eapply Forall_impl; [|exact Hmeta]. intros d [md [H1 [H2 _]]]. exists md. split; assumption.
Qed.

Lemma process_directory_chunk_indices_witness :
  exists docs,
  process_directory {| chunk_size := 12; chunk_overlap := 2 |} 50 true
    [{| root := list_ascii_of_string "data"; file := list_ascii_of_string "a.txt";
                 disk := Some (list_ascii_of_string "One. Two three. Four.") |}] = Ok docs
  /\ Forall (fun d => exists md, metadata d = Some md
            /\ total_chunks md = Z.of_nat (List.length (docs_of_path (entry_path
                 {| root := list_ascii_of_string "data"; file := list_ascii_of_string "a.txt";
                 disk := Some (list_ascii_of_string "One. Two three. Four.") |}) docs)))
         (docs_of_path (entry_path {| root := list_ascii_of_string "data"; file := list_ascii_of_string "a.txt";
                 disk := Some (list_ascii_of_string "One. Two three. Four.") |}) docs)
  /\ map (fun d => option_map chunk_index (metadata d))
        (docs_of_path (entry_path {| root := list_ascii_of_string "data"; file := list_ascii_of_string "a.txt";
                 disk := Some (list_ascii_of_string "One. Two three. Four.") |}) docs)
     = map (fun k => Some (Z.of_nat k))
           (seq 0 (List.length (docs_of_path (entry_path {| root := list_ascii_of_string "data"; file := list_ascii_of_string "a.txt";
                 disk := Some (list_ascii_of_string "One. Two three. Four.") |}) docs))).
Proof.
  eexists. split; [vm_compute; reflexivity|].
  apply (process_directory_chunk_indices {| chunk_size := 12; chunk_overlap := 2 |} 50 true
           [{| root := list_ascii_of_string "data"; file := list_ascii_of_string "a.txt";
                 disk := Some (list_ascii_of_string "One. Two three. Four.") |}]).
  - vm_compute; reflexivity.
  - left; reflexivity.
  - vm_compute. repeat constructor; simpl; tauto.
Defined.

End IngestFacts.

(** * Facts about the vector store *)
Module VectorStoreFacts.
Import Chunker Ingest VectorStore.

Section StoreFacts.
Context {embedding : Type}.
Variable encode : pystr -> option embedding.
Variable ranks_before :
  @store embedding -> embedding -> @entry embedding -> @entry embedding -> bool.

(** The ids of a store are [doc_0], ..., [doc_{count - 1}] in order. *)
Lemma embed_docs_ids base : forall docs i batch,
  embed_docs encode base i docs = Some batch ->
  map id batch = seq (base + i) (List.length docs).
Proof.
  induction docs as [|d docs IH]; intros i batch H; simpl in H.
  - injection H as <-. reflexivity.
  - destruct (encode (content d)) as [v|]; [|discriminate].
    destruct (embed_docs encode base (S i) docs) as [es|] eqn:E; [|discriminate].
    injection H as <-. simpl. f_equal. rewrite (IH (S i) es E). f_equal. lia.
Qed.

Lemma embed_docs_fail base : forall docs i,
  (exists d, In d docs /\ encode (content d) = None) ->
  embed_docs encode base i docs = None.
Proof.
  induction docs as [|d docs IH]; intros i [d' [Hin Hd]]; [destruct Hin|].
  simpl. destruct Hin as [<- | Hin]; [rewrite Hd; reflexivity|].
  destruct (encode (content d)); [|reflexivity].
  rewrite (IH (S i)) by (exists d'; split; assumption). reflexivity.
Qed.


Lemma existsb_eqb_seq x a n :
  (x < a \/ a + n <= x)%nat -> existsb (Nat.eqb x) (seq a n) = false.
Proof.
  intros Hx. apply not_true_is_false. intros H.
  apply existsb_exists in H. destruct H as [y [Hy Hxy]].
  apply in_seq in Hy. apply Nat.eqb_eq in Hxy. lia.
Qed.

Lemma nodup_nat_seq : forall n a, nodup_nat (seq a n) = true.
Proof.
  induction n as [|n IH]; intros a; simpl; [reflexivity|].
  rewrite existsb_eqb_seq by lia. rewrite IH. reflexivity.
Qed.

Lemma filter_all_true {A : Type} (f : A -> bool) : forall l,
  (forall x, In x l -> f x = true) -> filter f l = l.
Proof.
  induction l as [|x l IH]; intros H; simpl; [reflexivity|].
  rewrite (H x (or_introl eq_refl)). f_equal. apply IH. intros y Hy. apply H. right. exact Hy.
Qed.

(** A batch with fresh consecutive ids is stored whole, unless one of its
    entries has no metadata. *)
Lemma collection_add_fresh (st : @store embedding) (batch : list (@entry embedding)) n :
  map id (collection st) = seq 0 (count st) ->
  map id batch = seq (count st) n ->
  collection_add st batch
  = if existsb (fun e => match meta e with None => true | Some _ => false end) batch
    then Raise ValueError else Ok {| collection := collection st ++ batch |}.
Proof.
  intros Hst Hb. unfold collection_add. rewrite Hb, nodup_nat_seq. cbn [negb].
  destruct (existsb _ batch); [reflexivity|].
  rewrite filter_all_true; [reflexivity|].
  intros e He. rewrite Hst, existsb_eqb_seq; [reflexivity|].
  assert (Hin : In (id e) (seq (count st) n)) by (rewrite <- Hb; apply in_map; exact He).
  apply in_seq in Hin. lia.
Qed.

Lemma embed_docs_fields base : forall docs i batch,
  embed_docs encode base i docs = Some batch ->
  map document batch = map content docs /\ map meta batch = map metadata docs.
Proof.
  induction docs as [|d docs IH]; intros i batch H; simpl in H.
  - injection H as <-. split; reflexivity.
  - destruct (encode (content d)) as [v|]; [|discriminate].
    destruct (embed_docs encode base (S i) docs) as [es|] eqn:E; [|discriminate].
    injection H as <-. destruct (IH (S i) es E) as [H1 H2].
    simpl. rewrite H1, H2. split; reflexivity.
Qed.


Lemma reachable_ids st :
  reachable encode st -> map id (collection st) = seq 0 (count st).
Proof.
  induction 1 as [|docs st Hr IH|st Hr IH]; [reflexivity| |reflexivity].
  unfold add_documents. destruct docs as [|d docs']; [exact IH|].
  destruct (embed_docs encode (count st) 0 (d :: docs')) as [batch|] eqn:E; [|exact IH].
  pose proof (embed_docs_ids _ _ _ _ E) as Hb. rewrite Nat.add_0_r in Hb.
  rewrite (collection_add_fresh st batch _ IH Hb).
  destruct (existsb _ batch); [exact IH|].
  assert (Hlen : List.length batch = List.length (d :: docs'))
    by (rewrite <- (length_map id batch), Hb, length_seq; reflexivity).
  unfold count in *. cbn [snd collection].
  rewrite map_app, IH, Hb, length_app, Hlen, seq_app.
  reflexivity.
Qed.

Lemma insert_by_length before (x : @entry embedding) : forall l,
  List.length (insert_by before x l) = S (List.length l).
Proof.
  induction l as [|y l IH]; simpl; [reflexivity|].
  destruct (before x y); simpl; [reflexivity | rewrite IH; reflexivity].
Qed.

Lemma sort_by_length before : forall l : list (@entry embedding),
  List.length (sort_by before l) = List.length l.
Proof.
  induction l as [|x l IH]; simpl; [reflexivity|]. rewrite insert_by_length, IH. reflexivity.
Qed.

(** Claim C2, as amended: [add_documents] computes every embedding before
    it touches the collection, so when the embedding of any document of
    the batch fails the call raises and the store is left exactly as it
    was: nothing of the batch is inserted. *)
Theorem add_documents_embedding_failure st docs :
  (exists d, In d docs /\ encode (content d) = None) ->
  add_documents encode docs st = (Raise EmbeddingError, st).
Proof.
  intros H. unfold add_documents. destruct docs as [|d docs'].
  - destruct H as [d [[] _]].
  - rewrite embed_docs_fail by exact H. reflexivity.
Qed.


(** Claim C5: for [top_k >= 1], [search] returns at most
    [min top_k count] documents; on an empty store it returns [[]] without
    raising; and a store of two entries searched with [top_k = 5] returns
    exactly two documents (when the query embeds). *)
Theorem search_result_count st q top_k :
  1 <= top_k ->
  (forall rs, search encode ranks_before st q top_k = Ok rs ->
     Z.of_nat (List.length rs) <= Z.min top_k (Z.of_nat (count st)))
  /\ (count st = 0%nat -> search encode ranks_before st q top_k = Ok [])
  /\ (count st = 2%nat -> encode q <> None ->
      exists rs, search encode ranks_before st q 5 = Ok rs /\ List.length rs = 2%nat).
Proof.
  intros Hk. split; [|split].
  - intros rs. unfold search.
    destruct (Nat.eqb_spec (count st) 0) as [E|E].
    + intros H; injection H as <-. simpl. lia.
    + destruct (encode q) as [qe|]; [|discriminate]. unfold collection_query.
      destruct (Z.min top_k (Z.of_nat (count st)) <? 1) eqn:Hlt; [discriminate|].
      intros H; injection H as <-.
      rewrite length_map, length_firstn, sort_by_length. unfold count in *. lia.
  - intros E. unfold search. rewrite E. reflexivity.
  - intros E Hq. unfold search. rewrite E. cbn [Nat.eqb].
    destruct (encode q) as [qe|]; [|congruence]. unfold collection_query.
    eexists. split; [reflexivity|].
    rewrite length_map, length_firstn, sort_by_length. unfold count in E. rewrite E. reflexivity.
Qed.

End StoreFacts.

Lemma add_documents_embedding_failure_witness :
  add_documents (fun s : pystr => if pystr_eqb s (list_ascii_of_string "bad") then None else Some (py_len s))
    [{| content := list_ascii_of_string "ok"; metadata := None |}; {| content := list_ascii_of_string "bad"; metadata := None |}] (@empty_store Z)
  = (Raise EmbeddingError, @empty_store Z).
Proof.
  apply add_documents_embedding_failure.
  exists {| content := list_ascii_of_string "bad"; metadata := None |}.
  split; [right; left; reflexivity | vm_compute; reflexivity].
Defined.

(** Claim C2 fails: with an embedding model that fails on the text
    ["bad"], adding the batch [["ok"; "bad"]] (failure at position 1) to
    the empty store raises, but the entry at position 0 is not left in the
    store: the count stays 0. *)
Lemma add_documents_partial_insert_cex :
  (fun s : pystr => if pystr_eqb s (list_ascii_of_string "bad") then None else Some (py_len s)) (content {| content := list_ascii_of_string "bad"; metadata := None |}) = None
  /\ add_documents (fun s : pystr => if pystr_eqb s (list_ascii_of_string "bad") then None else Some (py_len s))
       [{| content := list_ascii_of_string "ok"; metadata := None |}; {| content := list_ascii_of_string "bad"; metadata := None |}] (@empty_store Z)
     = (Raise EmbeddingError, @empty_store Z)
  /\ ~ (count (snd (add_documents (fun s : pystr => if pystr_eqb s (list_ascii_of_string "bad") then None else Some (py_len s))
                      [{| content := list_ascii_of_string "ok"; metadata := None |}; {| content := list_ascii_of_string "bad"; metadata := None |}] (@empty_store Z)))
        > count (@empty_store Z))%nat.
Proof.
  split; [vm_compute; reflexivity|]. split; [vm_compute; reflexivity|].
  vm_compute. lia.
Qed.



Lemma search_result_count_witness :
  (forall rs, search (fun s : pystr => if pystr_eqb s (list_ascii_of_string "bad") then None else Some (py_len s)) (fun (_ : @store Z) (q : Z) (a b : @entry Z) => Z.abs (q - vector a) <=? Z.abs (q - vector b)) {| collection := [{| id := 0; vector := 1; document := list_ascii_of_string "a"; meta := None |}; {| id := 1; vector := 2; document := list_ascii_of_string "bb"; meta := None |}] |} (list_ascii_of_string "abc") 3 = Ok rs ->
     Z.of_nat (List.length rs) <= Z.min 3 (Z.of_nat (count {| collection := [{| id := 0; vector := 1; document := list_ascii_of_string "a"; meta := None |}; {| id := 1; vector := 2; document := list_ascii_of_string "bb"; meta := None |}] |})))
  /\ (count {| collection := [{| id := 0; vector := 1; document := list_ascii_of_string "a"; meta := None |}; {| id := 1; vector := 2; document := list_ascii_of_string "bb"; meta := None |}] |} = 0%nat -> search (fun s : pystr => if pystr_eqb s (list_ascii_of_string "bad") then None else Some (py_len s)) (fun (_ : @store Z) (q : Z) (a b : @entry Z) => Z.abs (q - vector a) <=? Z.abs (q - vector b)) {| collection := [{| id := 0; vector := 1; document := list_ascii_of_string "a"; meta := None |}; {| id := 1; vector := 2; document := list_ascii_of_string "bb"; meta := None |}] |} (list_ascii_of_string "abc") 3 = Ok [])
  /\ (count {| collection := [{| id := 0; vector := 1; document := list_ascii_of_string "a"; meta := None |}; {| id := 1; vector := 2; document := list_ascii_of_string "bb"; meta := None |}] |} = 2%nat -> (fun s : pystr => if pystr_eqb s (list_ascii_of_string "bad") then None else Some (py_len s)) (list_ascii_of_string "abc") <> None ->
      exists rs, search (fun s : pystr => if pystr_eqb s (list_ascii_of_string "bad") then None else Some (py_len s)) (fun (_ : @store Z) (q : Z) (a b : @entry Z) => Z.abs (q - vector a) <=? Z.abs (q - vector b)) {| collection := [{| id := 0; vector := 1; document := list_ascii_of_string "a"; meta := None |}; {| id := 1; vector := 2; document := list_ascii_of_string "bb"; meta := None |}] |} (list_ascii_of_string "abc") 5 = Ok rs /\ List.length rs = 2%nat).
Proof.
  apply search_result_count. lia.
Defined.

End VectorStoreFacts.

(** ** Further properties of [chunk_text]. *)
Module ChunkerExtra.
Import Chunker ChunkerFacts.

Lemma lstrip_split s :
  exists ws, s = ws ++ lstrip s /\ Forall (fun c => isspace c = true) ws.
Proof.
  induction s as [|c s IH]; simpl.
  - exists []. split; [reflexivity | constructor].
  - destruct (isspace c) eqn:Hc.
    + destruct IH as [ws [Hs Hws]]. exists (c :: ws).
      split; [simpl; f_equal; exact Hs | constructor; assumption].
    + exists []. split; [reflexivity | constructor].
Qed.

Lemma lstrip_head s :
  lstrip s = [] \/ exists c r, lstrip s = c :: r /\ isspace c = false.
Proof.
  induction s as [|c s IH]; simpl; [left; reflexivity|].
  destruct (isspace c) eqn:Hc; [exact IH | right; exists c, s; split; [reflexivity | exact Hc]].
Qed.

Lemma lstrip_idem s : lstrip (lstrip s) = lstrip s.
Proof.
  induction s as [|c s IH]; simpl; [reflexivity|].
  destruct (isspace c) eqn:Hc; [exact IH | simpl; rewrite Hc; reflexivity].
Qed.

(** [strip] is idempotent. *)
Lemma strip_idem s : strip (strip s) = strip s.
Proof.
  assert (Hl : lstrip (strip s) = strip s).
  { unfold strip, rstrip.
    destruct (lstrip_head s) as [E | [c [r [E Hc]]]]; [rewrite E; reflexivity|].
    destruct (lstrip_split (rev (lstrip s))) as [ws [Hs Hws]].
    set (L := lstrip (rev (lstrip s))) in *.
    assert (Hls : lstrip s = rev L ++ rev ws).
    { rewrite <- rev_app_distr, <- Hs, rev_involutive. reflexivity. }
    rewrite E in Hls.
    destruct (rev L) as [|d p] eqn:HrL.
    - exfalso. simpl in Hls.
      assert (Hin : In c (rev ws)) by (rewrite <- Hls; left; reflexivity).
      apply in_rev in Hin. rewrite Forall_forall in Hws.
      rewrite (Hws c Hin) in Hc. discriminate.
    - simpl in Hls. injection Hls as Hd _. subst d. simpl. rewrite Hc. reflexivity. }
  unfold strip at 1. rewrite Hl. unfold strip, rstrip.
  rewrite rev_involutive, lstrip_idem. reflexivity.
Qed.

Lemma strip_nil_iff s : strip s = [] <-> Forall (fun c => isspace c = true) s.
Proof.
  assert (Hl : lstrip s = [] <-> Forall (fun c => isspace c = true) s).
  { induction s as [|c s IH]; simpl; [split; [constructor | reflexivity]|].
    destruct (isspace c) eqn:Hc.
    - rewrite IH. split; [constructor; assumption | intros H; inversion H; assumption].
    - split; [discriminate | intros H; inversion H; congruence]. }
  rewrite <- Hl. unfold strip, rstrip. split.
  - intros H. destruct (lstrip_head s) as [E | [c [r [E Hc]]]]; [exact E|].
    exfalso. apply (f_equal (@rev ascii)) in H. rewrite rev_involutive in H. simpl in H.
    destruct (lstrip_split (rev (lstrip s))) as [ws [Hs Hws]].
    rewrite H, app_nil_r in Hs. rewrite E in Hs. simpl in Hs.
    assert (Hin : In c ws) by (rewrite <- Hs; apply in_or_app; right; left; reflexivity).
    rewrite Forall_forall in Hws. rewrite (Hws c Hin) in Hc. discriminate.
  - intros H. rewrite H. reflexivity.
Qed.

Lemma infix_trans (a b c : pystr) :
  (exists p q, b = p ++ a ++ q) -> (exists p q, c = p ++ b ++ q) ->
  exists p q, c = p ++ a ++ q.
Proof.
  intros [p1 [q1 ->]] [p2 [q2 ->]]. exists (p2 ++ p1), (q1 ++ q2).
  rewrite <- !app_assoc. reflexivity.
Qed.

Lemma py_slice_infix s a b : exists p q, s = p ++ py_slice s a b ++ q.
Proof.
  unfold py_slice.
  destruct (py_norm a (py_len s) <? py_norm b (py_len s)).
  - set (k := Z.to_nat (py_norm b (py_len s) - py_norm a (py_len s))).
    set (i := Z.to_nat (py_norm a (py_len s))).
    exists (firstn i s), (skipn k (skipn i s)).
    rewrite !firstn_skipn. reflexivity.
  - exists [], s. reflexivity.
Qed.

Lemma strip_infix s : exists p q, s = p ++ strip s ++ q.
Proof.
  destruct (lstrip_split s) as [ws1 [H1 _]].
  destruct (lstrip_split (rev (lstrip s))) as [ws2 [H2 _]].
  exists ws1, (rev ws2). unfold strip, rstrip.
  rewrite H1 at 1. f_equal.
  rewrite <- rev_app_distr, <- H2, rev_involutive. reflexivity.
Qed.

(** What one iteration appends is the stripped text of a window of the
    text, dropped when empty. *)
Lemma chunk_step_window self text start :
  exists w, fst (chunk_step self text start) = keep_nonempty (strip w)
            /\ exists p q, text = p ++ w ++ q.
Proof.
  unfold chunk_step.
  destruct (start + chunk_size self <? py_len text).
  - match goal with |- context [if ?b then _ else _] => destruct b end.
    + eexists. split; [reflexivity|].
      eapply infix_trans; [apply py_slice_infix | apply py_slice_infix].
    + eexists. split; [reflexivity | apply py_slice_infix].
  - eexists. split; [reflexivity | apply py_slice_infix].
Qed.

Lemma chunk_loop_forall (P : pystr -> Prop) self text fuel :
  (forall start, Forall P (fst (chunk_step self text start))) ->
  forall start acc cs, Forall P acc ->
  chunk_loop self text fuel start acc = Some cs -> Forall P cs.
Proof.
  intros Hstep. induction fuel as [|fuel IH]; intros start acc cs Hacc Hrun; simpl in Hrun.
  - destruct (start <? py_len text); [discriminate | injection Hrun as <-; exact Hacc].
  - destruct (start <? py_len text); [|injection Hrun as <-; exact Hacc].
    pose proof (Hstep start) as Hs.
    destruct (chunk_step self text start) as [out start'] eqn:E.
    apply (IH start' (acc ++ out)); [apply Forall_app; split; assumption | exact Hrun].
Qed.

(** Every chunk is non-empty, already stripped, and a contiguous piece
    of the text. *)
Lemma chunk_text_pieces self fuel text cs :
  chunk_text self fuel text = Some cs ->
  Forall (fun c => c <> [] /\ strip c = c /\ exists p q, text = p ++ c ++ q) cs.
Proof.
  apply chunk_loop_forall; [|constructor].
  intros start. destruct (chunk_step_window self text start) as [w [-> Hw]].
  destruct (strip w) as [|x r] eqn:E; [constructor|].
  constructor; [|constructor].
  split; [discriminate|]. split; [rewrite <- E; apply strip_idem|].
  rewrite <- E. eapply infix_trans; [apply strip_infix | exact Hw].
Qed.

(** Every chunk [chunk_text] returns is non-empty and has no leading or
    trailing whitespace: [chunk.strip() == chunk]. *)
Theorem chunk_text_chunks_stripped self fuel text cs :
  chunk_text self fuel text = Some cs ->
  Forall (fun c => c <> [] /\ strip c = c) cs.
Proof.
  intros H. eapply Forall_impl; [|exact (chunk_text_pieces self fuel text cs H)].
  intros c [H1 [H2 _]]. split; assumption.
Qed.

(** Every chunk [chunk_text] returns is a contiguous substring of the
    text, whatever the chunk size and overlap (also when the overlap
    makes the scan start from a negative index). *)
Theorem chunk_text_chunks_in_text self fuel text cs :
  chunk_text self fuel text = Some cs ->
  Forall (fun c => exists p q, text = p ++ c ++ q) cs.
Proof.
  intros H. eapply Forall_impl; [|exact (chunk_text_pieces self fuel text cs H)].
  intros c [_ [_ H3]]. exact H3.
Qed.

(** A text made only of whitespace (or empty) gives no chunk. *)
Theorem chunk_text_blank_no_chunks self fuel text cs :
  chunk_text self fuel text = Some cs ->
  Forall (fun c => isspace c = true) text ->
  cs = [].
Proof.
  intros H Hsp. pose proof (chunk_text_pieces self fuel text cs H) as Hp.
  destruct cs as [|c cs]; [reflexivity|]. exfalso.
  apply Forall_inv in Hp. destruct Hp as [Hne [Hst [p [q Hin]]]].
  apply Hne. rewrite <- Hst. apply strip_nil_iff.
  rewrite Hin in Hsp. apply Forall_app in Hsp. destruct Hsp as [_ Hsp].
  apply Forall_app in Hsp. exact (proj1 Hsp).
Qed.

Lemma chunk_text_chunks_stripped_witness :
  chunk_text {| chunk_size := 10; chunk_overlap := 0 |} 20
    (list_ascii_of_string "One. Two three. ")
  = Some [list_ascii_of_string "One. Two"; list_ascii_of_string "three."]
  /\ Forall (fun c => c <> [] /\ strip c = c)
       [list_ascii_of_string "One. Two"; list_ascii_of_string "three."].
Proof.
  split; [vm_compute; reflexivity|].
  apply (chunk_text_chunks_stripped {| chunk_size := 10; chunk_overlap := 0 |} 20
           (list_ascii_of_string "One. Two three. ")).
  vm_compute; reflexivity.
Defined.

Lemma chunk_text_chunks_in_text_witness :
  chunk_text {| chunk_size := 8; chunk_overlap := 5 |} 20
    (list_ascii_of_string "abc def ghi")
  = Some [list_ascii_of_string "abc def"; list_ascii_of_string "def ghi";
          list_ascii_of_string "f ghi"; list_ascii_of_string "hi"]
  /\ Forall (fun c => exists p q, list_ascii_of_string "abc def ghi" = p ++ c ++ q)
       [list_ascii_of_string "abc def"; list_ascii_of_string "def ghi";
        list_ascii_of_string "f ghi"; list_ascii_of_string "hi"].
Proof.
  split; [vm_compute; reflexivity|].
  apply (chunk_text_chunks_in_text {| chunk_size := 8; chunk_overlap := 5 |} 20).
  vm_compute; reflexivity.
Defined.

Lemma chunk_text_blank_no_chunks_witness :
  chunk_text {| chunk_size := 500; chunk_overlap := 50 |} 10
    [" "%char; "010"%char; "009"%char; " "%char] = Some []
  /\ Forall (fun c => isspace c = true) [" "%char; "010"%char; "009"%char; " "%char]
  /\ @nil pystr = [].
Proof.
  split; [vm_compute; reflexivity|]. split; [repeat constructor|].
  apply (chunk_text_blank_no_chunks {| chunk_size := 500; chunk_overlap := 50 |} 10
           [" "%char; "010"%char; "009"%char; " "%char]);
    [vm_compute; reflexivity | repeat constructor].
Defined.

End ChunkerExtra.

(** ** Further properties of [load_file] and [process_directory]. *)
Module IngestExtra.
Import Chunker Ingest ChunkerFacts IngestFacts ChunkerExtra.

Lemma lower_char_period c : lower_char c = period -> c = period.
Proof.
  destruct c as [[|] [|] [|] [|] [|] [|] [|] [|]]; vm_compute; congruence.
Qed.

Lemma lower_char_not_period c d : lower_char c = d -> d <> period -> c <> period.
Proof. intros H Hd ->. apply Hd. rewrite <- H. reflexivity. Qed.

(** The dot that starts a [.txt] extension is the last dot of the name. *)
Lemma rfind_txt stem ext :
  lower ext = txt -> rfind (stem ++ ext) period = Z.of_nat (List.length stem).
Proof.
  intros Hext.
  destruct ext as [|a [|b [|c [|d [|x ext]]]]]; try discriminate.
  injection Hext as Ha Hb Hc Hd.
  apply lower_char_period in Ha. subst a.
  apply lower_char_not_period in Hb; [|discriminate].
  apply lower_char_not_period in Hc; [|discriminate].
  apply lower_char_not_period in Hd; [|discriminate].
  destruct (rfind_spec (stem ++ [period; b; c; d]) period) as [Hup [Hb' Hw]].
  assert (Hlo : Z.of_nat (List.length stem) <= rfind (stem ++ [period; b; c; d]) period).
  { apply Hup. rewrite nth_error_app2, Nat.sub_diag by lia. reflexivity. }
  unfold py_len in Hb'. rewrite length_app in Hb'. simpl in Hb'.
  destruct Hw as [Hw | Hw]; [lia|].
  assert (Hcase : rfind (stem ++ [period; b; c; d]) period
                  = Z.of_nat (List.length stem) + Z.of_nat 0
                  \/ rfind (stem ++ [period; b; c; d]) period
                  = Z.of_nat (List.length stem) + Z.of_nat 1
                  \/ rfind (stem ++ [period; b; c; d]) period
                  = Z.of_nat (List.length stem) + Z.of_nat 2
                  \/ rfind (stem ++ [period; b; c; d]) period
                  = Z.of_nat (List.length stem) + Z.of_nat 3) by lia.
  destruct Hcase as [E|[E|[E|E]]]; rewrite E in Hw |- *;
    rewrite <- Nat2Z.inj_add, Nat2Z.id, nth_error_app2, Nat.add_comm, Nat.add_sub in Hw by lia;
    simpl in Hw; try lia; injection Hw; intros; contradiction.
Qed.

Lemma py_slice_tail s i :
  0 <= i < py_len s -> py_slice s i (py_len s) = skipn (Z.to_nat i) s.
Proof.
  intros Hi. rewrite py_slice_nonneg by lia. unfold sub.
  rewrite Z.min_id. apply firstn_all2. rewrite length_skipn. unfold py_len. lia.
Qed.

(** [load_file] reads a file exactly when its name ends with [.txt] in
    any letter case after at least one character ([PurePath.suffix]
    gives no suffix to a name such as [.txt]); any other file raises
    [ValueError] before it is opened. *)
Theorem load_file_txt_only e :
  ((exists stem ext, file e = stem ++ ext /\ stem <> [] /\ lower ext = txt) ->
     load_file e = disk e)
  /\ (load_file e <> None ->
      exists stem ext, file e = stem ++ ext /\ stem <> [] /\ lower ext = txt).
Proof.
  split.
  - intros [stem [ext [Hf [Hs Hext]]]]. unfold load_file, suffix. rewrite Hf.
    rewrite rfind_txt by exact Hext.
    assert (Hlen : List.length ext = 4%nat).
    { rewrite <- (length_map lower_char ext). fold (lower ext). rewrite Hext. reflexivity. }
    assert (Hpos : (0 < List.length stem)%nat) by (destruct stem; [congruence | simpl; lia]).
    replace ((0 <? Z.of_nat (List.length stem))
             && (Z.of_nat (List.length stem) <? py_len (stem ++ ext) - 1)) with true
      by (unfold py_len; rewrite length_app; symmetry; apply andb_true_iff; split; apply Z.ltb_lt; lia).
    rewrite py_slice_tail by (unfold py_len; rewrite length_app; lia).
    rewrite Nat2Z.id, skipn_app, skipn_all, Nat.sub_diag. simpl.
    rewrite Hext. reflexivity.
  - unfold load_file. intros H.
    destruct (pystr_eqb (lower (suffix (file e))) txt) eqn:E; [|congruence].
    apply pystr_eqb_eq in E. unfold suffix in E.
    destruct ((0 <? rfind (file e) period) && (rfind (file e) period <? py_len (file e) - 1))
      eqn:Hi; [|discriminate].
    apply andb_true_iff in Hi. destruct Hi as [Hi1 Hi2].
    apply Z.ltb_lt in Hi1. apply Z.ltb_lt in Hi2.
    rewrite py_slice_tail in E by lia.
    exists (firstn (Z.to_nat (rfind (file e) period)) (file e)),
           (skipn (Z.to_nat (rfind (file e) period)) (file e)).
    split; [symmetry; apply firstn_skipn|]. split; [|exact E].
    intros Hn. apply (f_equal (@List.length ascii)) in Hn.
    rewrite length_firstn in Hn. simpl in Hn. unfold py_len in Hi2. lia.
Qed.

(** A file that is hidden (its name starts with a dot) or that
    [load_file] cannot load (unsupported extension, or a read error) is
    skipped: [process_directory] gives the same result without it. *)
Theorem process_directory_skips_unloadable self fuel directory_exists pre e post :
  starts_with_dot (file e) = true \/ load_file e = None ->
  process_directory self fuel directory_exists (pre ++ e :: post)
  = process_directory self fuel directory_exists (pre ++ post).
Proof.
  intros Hskip.
  assert (He : process_file self fuel e = Ok []).
  { unfold process_file.
    destruct Hskip as [Hd | Hl]; [rewrite Hd; reflexivity|].
    destruct (starts_with_dot (file e)); [reflexivity|]. rewrite Hl. reflexivity. }
  unfold process_directory. destruct directory_exists; [|reflexivity].
  rewrite !process_files_app.
  destruct (process_files self fuel pre []) as [acc| |]; [|reflexivity|reflexivity].
  simpl. rewrite He, app_nil_r. reflexivity.
Qed.

Lemma enumerate_docs_origin name path total : forall chunks i,
  Forall (fun d => In (content d) chunks
           /\ exists md, metadata d = Some md /\ source md = name /\ file_path md = path)
         (enumerate_docs name path total i chunks).
Proof.
  induction chunks as [|c cs IH]; intros i; simpl; constructor.
  - split; [left; reflexivity | eexists; repeat split].
  - eapply Forall_impl; [|apply IH]. intros d [Hin Hmd]. split; [right; exact Hin | exact Hmd].
Qed.

Lemma process_file_origin self fuel e ds :
  process_file self fuel e = Ok ds ->
  Forall (fun d => exists text md, starts_with_dot (file e) = false
            /\ load_file e = Some text /\ metadata d = Some md
            /\ source md = file e /\ file_path md = entry_path e
            /\ content d <> [] /\ exists p q, text = p ++ content d ++ q) ds.
Proof.
  unfold process_file. intros H.
  destruct (starts_with_dot (file e)) eqn:Hdot; [injection H as <-; constructor|].
  destruct (load_file e) as [text|] eqn:Hl; [|injection H as <-; constructor].
  destruct (strip text) as [|x xs]; [injection H as <-; constructor|].
  destruct (chunk_text self fuel text) as [chunks|] eqn:Hc; [|discriminate].
  injection H as <-.
  pose proof (chunk_text_pieces self fuel text chunks Hc) as Hp.
  rewrite Forall_forall in Hp.
  eapply Forall_impl; [|apply enumerate_docs_origin].
  intros d [Hin [md [Hmd [Hsrc Hpath]]]]. destruct (Hp _ Hin) as [Hne [_ Hsub]].
  exists text, md. repeat split; assumption.
Qed.

(** Every document [process_directory] returns comes from a file of the
    walk that is not hidden and that [load_file] loads: its metadata
    names that file ([source] its name, [file_path] its joined path) and
    its content is a non-empty contiguous piece of the file's text. *)
Theorem process_directory_provenance self fuel directory_exists walk docs :
  process_directory self fuel directory_exists walk = Ok docs ->
  Forall (fun d => exists e text md, In e walk /\ starts_with_dot (file e) = false
            /\ load_file e = Some text /\ metadata d = Some md
            /\ source md = file e /\ file_path md = entry_path e
            /\ content d <> [] /\ exists p q, text = p ++ content d ++ q) docs.
Proof.
  unfold process_directory. destruct directory_exists; [|discriminate].
  intros H. destruct (process_files_split self fuel walk [] docs H) as [dss [Hf ->]].
  simpl. clear H. induction Hf as [|e ds walk dss Hd Hf IH]; simpl; [constructor|].
  apply Forall_app. split.
  - eapply Forall_impl; [|exact (process_file_origin self fuel e ds Hd)].
    intros d [text [md Hx]]. exists e, text, md. split; [left; reflexivity | exact Hx].
  - eapply Forall_impl; [|exact IH].
    intros d [e' [text [md [Hin Hx]]]]. exists e', text, md.
    split; [right; exact Hin | exact Hx].
Qed.

Lemma process_files_no_stall self fuel walk : forall acc,
  0 < chunk_size self -> 0 <= chunk_overlap self ->
  chunk_overlap self < chunk_size self ->
  chunk_overlap self <= chunk_size self / 2 + 1 ->
  (forall e text, In e walk -> load_file e = Some text -> (List.length text <= fuel)%nat) ->
  exists docs, process_files self fuel walk acc = Ok docs.
Proof.
  induction walk as [|e walk IH]; intros acc Hm H0 Hlt Hhalf Hfuel; simpl;
    [eexists; reflexivity|].
  assert (He : exists ds, process_file self fuel e = Ok ds).
  { unfold process_file. destruct (starts_with_dot (file e)); [eexists; reflexivity|].
    destruct (load_file e) as [text|] eqn:Hl; [|eexists; reflexivity].
    destruct (strip text); [eexists; reflexivity|].
    destruct (chunk_loop_terminates self text fuel 0 [] Hm H0 Hlt Hhalf) as [cs Hcs].
    - specialize (Hfuel e text (or_introl eq_refl) Hl). unfold py_len. lia.
    - unfold chunk_text. rewrite Hcs. eexists; reflexivity. }
  destruct He as [ds Hds]. rewrite Hds.
  apply IH; try assumption. intros e' text Hin Hl. apply (Hfuel e' text); [right|]; assumption.
Qed.

(** [process_directory] raises only [FileNotFoundError], for a missing
    directory: an existing one always gives a list of documents, since
    every error of a file is caught, provided the chunk settings let the
    scan of [chunk_text] advance ([0 <= chunk_overlap < chunk_size] and
    [chunk_overlap <= chunk_size // 2 + 1], as the defaults 500 and 50
    do) and the loop bound covers the length of each file. *)
Theorem process_directory_outcome self fuel directory_exists walk :
  0 < chunk_size self -> 0 <= chunk_overlap self ->
  chunk_overlap self < chunk_size self ->
  chunk_overlap self <= chunk_size self / 2 + 1 ->
  (forall e text, In e walk -> load_file e = Some text -> (List.length text <= fuel)%nat) ->
  (directory_exists = true ->
     exists docs, process_directory self fuel directory_exists walk = Ok docs)
  /\ (directory_exists = false ->
      process_directory self fuel directory_exists walk = Raise FileNotFoundError).
Proof.
  intros Hm H0 Hlt Hhalf Hfuel. unfold process_directory. split.
  - intros ->. apply process_files_no_stall; assumption.
  - intros ->. reflexivity.
Qed.

Lemma process_directory_skips_unloadable_witness :
  process_directory {| chunk_size := 500; chunk_overlap := 50 |} 100 true
    ([] ++ {| root := list_ascii_of_string "data"; file := list_ascii_of_string "notes.pdf";
              disk := Some (list_ascii_of_string "Some text.") |}
        :: [{| root := list_ascii_of_string "data"; file := list_ascii_of_string ".draft.txt";
               disk := Some (list_ascii_of_string "Draft.") |};
            {| root := list_ascii_of_string "data"; file := list_ascii_of_string "a.txt";
               disk := Some (list_ascii_of_string "Hello.") |}])
  = process_directory {| chunk_size := 500; chunk_overlap := 50 |} 100 true
    ([] ++ [{| root := list_ascii_of_string "data"; file := list_ascii_of_string ".draft.txt";
               disk := Some (list_ascii_of_string "Draft.") |};
            {| root := list_ascii_of_string "data"; file := list_ascii_of_string "a.txt";
               disk := Some (list_ascii_of_string "Hello.") |}]).
Proof.
  apply process_directory_skips_unloadable. right. vm_compute. reflexivity.
Defined.

Lemma process_directory_provenance_witness :
  exists docs,
    process_directory {| chunk_size := 8; chunk_overlap := 2 |} 100 true
      [{| root := list_ascii_of_string "data"; file := list_ascii_of_string "a.TXT";
          disk := Some (list_ascii_of_string "Hello there. Bye.") |};
       {| root := list_ascii_of_string "data"; file := list_ascii_of_string "b.md";
          disk := Some (list_ascii_of_string "Skipped.") |}] = Ok docs
    /\ List.length docs = 4%nat
    /\ Forall (fun d => exists e text md,
            In e [{| root := list_ascii_of_string "data"; file := list_ascii_of_string "a.TXT";
                     disk := Some (list_ascii_of_string "Hello there. Bye.") |};
                  {| root := list_ascii_of_string "data"; file := list_ascii_of_string "b.md";
                     disk := Some (list_ascii_of_string "Skipped.") |}]
            /\ starts_with_dot (file e) = false
            /\ load_file e = Some text /\ metadata d = Some md
            /\ source md = file e /\ file_path md = entry_path e
            /\ content d <> [] /\ exists p q, text = p ++ content d ++ q) docs.
Proof.
  eexists. split; [reflexivity|]. split; [reflexivity|].
  apply (process_directory_provenance {| chunk_size := 8; chunk_overlap := 2 |} 100 true).
  reflexivity.
Defined.

Lemma process_directory_outcome_witness :
  (true = true ->
     exists docs, process_directory {| chunk_size := 500; chunk_overlap := 50 |} 12 true
       [{| root := list_ascii_of_string "data"; file := list_ascii_of_string "a.txt";
           disk := Some (list_ascii_of_string "Hello there.") |};
        {| root := list_ascii_of_string "data"; file := list_ascii_of_string "b.txt";
           disk := None |}] = Ok docs)
  /\ (true = false ->
      process_directory {| chunk_size := 500; chunk_overlap := 50 |} 12 true
       [{| root := list_ascii_of_string "data"; file := list_ascii_of_string "a.txt";
           disk := Some (list_ascii_of_string "Hello there.") |};
        {| root := list_ascii_of_string "data"; file := list_ascii_of_string "b.txt";
           disk := None |}] = Raise FileNotFoundError).
Proof.
  apply process_directory_outcome; try (simpl; lia).
  intros e text [<- | [<- | []]] Hl; vm_compute in Hl; [injection Hl as <-; simpl; lia | discriminate].
Defined.

End IngestExtra.

(** ** Further properties of the vector store. *)
Module StoreExtra.
Import Chunker Ingest VectorStore VectorStoreFacts.

Section StoreExtraFacts.
Context {embedding : Type}.
Variable encode : pystr -> option embedding.
Variable ranks_before :
  @store embedding -> embedding -> @entry embedding -> @entry embedding -> bool.

(** The ids of a store a run can produce are [doc_0], ...,
    [doc_{count - 1}] in insertion order; so no two entries share an
    id. *)
Theorem reachable_ids_distinct st :
  reachable encode st ->
  map id (collection st) = seq 0 (count st) /\ NoDup (map id (collection st)).
Proof.
  intros Hr. pose proof (reachable_ids encode st Hr) as H.
  split; [exact H | rewrite H; apply seq_NoDup].
Qed.



Lemma insert_by_perm before (x : @entry embedding) : forall l,
  Permutation (insert_by before x l) (x :: l).
Proof.
  induction l as [|y l IH]; simpl; [reflexivity|].
  destruct (before x y); [reflexivity|].
  rewrite IH. apply perm_swap.
Qed.

Lemma sort_by_perm before : forall l : list (@entry embedding),
  Permutation (sort_by before l) l.
Proof.
  induction l as [|x l IH]; simpl; [reflexivity|].
  rewrite insert_by_perm. apply perm_skip. exact IH.
Qed.

End StoreExtraFacts.

Lemma reachable_ids_distinct_witness :
  let enc := fun s : pystr =>
    if pystr_eqb s (list_ascii_of_string "bad") then None else Some (py_len s) in
  let md := Some {| source := list_ascii_of_string "a.txt"; chunk_index := 0;
                    total_chunks := 1; file_path := list_ascii_of_string "data/a.txt" |} in
  let st := snd (add_documents enc
                   [{| content := list_ascii_of_string "a"; metadata := md |};
                    {| content := list_ascii_of_string "bb"; metadata := md |}]
                   (@empty_store Z)) in
  reachable enc st
  /\ count st = 2%nat
  /\ map id (collection st) = seq 0 (count st) /\ NoDup (map id (collection st)).
Proof.
  intros enc md st. split; [apply reach_add, reach_new|].
  split; [vm_compute; reflexivity|].
  apply (reachable_ids_distinct enc). apply reach_add, reach_new.
Defined.


End StoreExtra.

(** ** Properties of the prompt, the chatbot service and the [/chat]
    route. *)
Module ServiceFacts.
Import Chunker Ingest VectorStore Llm Service VectorStoreFacts ChunkerExtra StoreExtra.

Lemma concat_sep_infix (sep c : pystr) : forall parts, In c parts ->
  exists p q, List.concat (map (fun x => sep ++ x) parts) = p ++ c ++ q.
Proof.
  induction parts as [|x parts IH]; intros Hin; [destruct Hin|]. simpl.
  destruct Hin as [<- | Hin].
  - exists sep, (List.concat (map (fun x => sep ++ x) parts)).
    rewrite <- app_assoc. reflexivity.
  - destruct (IH Hin) as [p [q ->]]. exists ((sep ++ x) ++ p), q.
    rewrite <- !app_assoc. reflexivity.
Qed.

Lemma str_join_infix sep parts c : In c parts ->
  exists p q, str_join sep parts = p ++ c ++ q.
Proof.
  destruct parts as [|x parts]; intros Hin; [destruct Hin|]. simpl.
  destruct Hin as [<- | Hin].
  - exists [], (List.concat (map (fun x => sep ++ x) parts)). reflexivity.
  - destruct (concat_sep_infix sep c parts Hin) as [p [q ->]].
    exists (x ++ p), q. rewrite <- !app_assoc. reflexivity.
Qed.

(** The user message sent to the model contains the question verbatim
    and every retrieved passage verbatim; with no passage it contains
    the sentence [No relevant context found in documents.] instead. *)
Theorem user_message_contents query context :
  (exists p q, user_message query context = p ++ query ++ q)
  /\ Forall (fun c => exists p q, user_message query context = p ++ c ++ q) context
  /\ (context = [] -> exists p q, user_message query context = p ++ no_context ++ q).
Proof.
  unfold user_message. split; [|split].
  - exists (lit "Context from MEU documents:" ++ nl ++ context_text context ++ nl ++ nl
            ++ lit "User Question: "),
           (nl ++ nl ++ lit "Please provide a helpful answer based on the context above.").
    rewrite <- !app_assoc. reflexivity.
  - apply Forall_forall. intros c Hin.
    destruct context as [|x xs]; [destruct Hin|].
    unfold context_text.
    destruct (str_join_infix (nl ++ nl) (x :: xs) c Hin) as [p [q Hj]].
    rewrite Hj.
    exists (lit "Context from MEU documents:" ++ nl ++ p),
           (q ++ nl ++ nl ++ lit "User Question: " ++ query ++ nl ++ nl
              ++ lit "Please provide a helpful answer based on the context above.").
    rewrite <- !app_assoc. reflexivity.
  - intros ->. unfold context_text.
    exists (lit "Context from MEU documents:" ++ nl),
           (nl ++ nl ++ lit "User Question: " ++ query ++ nl ++ nl
              ++ lit "Please provide a helpful answer based on the context above.").
    rewrite <- !app_assoc. reflexivity.
Qed.

Section Facts.
Context {embedding : Type}.
Variable encode : pystr -> option embedding.
Variable ranks_before :
  @store embedding -> embedding -> @entry embedding -> @entry embedding -> bool.
Variable complete : pystr -> pystr -> option pystr.
Variable processor : DocumentProcessor.
Variable top_k : Z.
Variable fuel : nat.
Variable directory_exists : bool.
Variable walk : list walk_entry.

(** [load_documents], on a store a run can produce, either appends the
    documents [process_directory] gives after the stored ones (nothing
    when it gives none), or raises and leaves the store as it was. *)
Theorem load_documents_outcome st :
  reachable encode st ->
  (fst (load_documents encode processor fuel directory_exists walk st) = Ok tt ->
     exists docs batch, process_directory processor fuel directory_exists walk = Ok docs
       /\ snd (load_documents encode processor fuel directory_exists walk st)
          = {| collection := collection st ++ batch |}
       /\ map document batch = map content docs
       /\ map meta batch = map metadata docs)
  /\ (fst (load_documents encode processor fuel directory_exists walk st) <> Ok tt ->
      snd (load_documents encode processor fuel directory_exists walk st) = st).
Proof.
  intros Hr. pose proof (reachable_ids encode st Hr) as Hids.
  unfold load_documents.
  destruct (process_directory processor fuel directory_exists walk) as [docs| x |];
    [| split; [discriminate | reflexivity] | split; [discriminate | reflexivity]].
  destruct docs as [|d docs'].
  - split; [|intros H; exfalso; apply H; reflexivity].
    intros _. exists [], []. destruct st as [c]. simpl. rewrite app_nil_r.
    repeat split; reflexivity.
  - unfold add_documents.
    destruct (embed_docs encode (count st) 0 (d :: docs')) as [batch|] eqn:E;
      [|split; [discriminate | reflexivity]].
    pose proof (embed_docs_ids encode _ _ _ _ E) as Hb. rewrite Nat.add_0_r in Hb.
    destruct (embed_docs_fields encode _ _ _ _ E) as [H1 H2].
    rewrite (collection_add_fresh st batch _ Hids Hb).
    destruct (existsb _ batch); [split; [discriminate | reflexivity]|].
    split; [|intros H; exfalso; apply H; reflexivity].
    intros _. exists (d :: docs'), batch. repeat split; assumption.
Qed.

(** [reload_documents] first clears the store: when it succeeds the
    store holds exactly the documents [process_directory] gives, in
    order, with ids [doc_0], [doc_1], ...; when it raises (missing
    directory, failed embedding) the store is left empty, the earlier
    documents being already deleted. *)
Theorem reload_documents_outcome st :
  (fst (reload_documents encode processor fuel directory_exists walk st) = Ok tt ->
     exists docs, process_directory processor fuel directory_exists walk = Ok docs
       /\ map document (collection (snd (reload_documents encode processor fuel
                                          directory_exists walk st)))
          = map content docs
       /\ map meta (collection (snd (reload_documents encode processor fuel
                                      directory_exists walk st)))
          = map metadata docs
       /\ map id (collection (snd (reload_documents encode processor fuel
                                    directory_exists walk st)))
          = seq 0 (List.length docs))
  /\ (fst (reload_documents encode processor fuel directory_exists walk st) <> Ok tt ->
      collection (snd (reload_documents encode processor fuel directory_exists walk st))
      = []).
Proof.
  unfold reload_documents, load_documents.
  destruct (process_directory processor fuel directory_exists walk) as [docs| x |];
    [| split; [discriminate | reflexivity] | split; [discriminate | reflexivity]].
  destruct docs as [|d docs'].
  - split; [|reflexivity]. intros _. exists []. repeat split; reflexivity.
  - unfold add_documents.
    destruct (embed_docs encode (count (clear st)) 0 (d :: docs')) as [batch|] eqn:E;
      [|split; [discriminate | reflexivity]].
    pose proof (embed_docs_ids encode _ _ _ _ E) as Hb. rewrite Nat.add_0_r in Hb.
    destruct (embed_docs_fields encode _ _ _ _ E) as [H1 H2].
    rewrite (collection_add_fresh (clear st) batch (List.length (d :: docs'))
               eq_refl Hb).
    destruct (existsb _ batch); [split; [discriminate | reflexivity]|].
    split; [|intros H; exfalso; apply H; reflexivity]. intros _. exists (d :: docs').
    split; [reflexivity|]. simpl. split; [exact H1|]. split; [exact H2|]. exact Hb.
Qed.

(** [initialize] marks the service initialised exactly when it does not
    raise, and it never touches a store that already holds documents or
    a service that is already initialised. *)
Theorem initialize_outcome svc :
  (initialized (snd (initialize encode processor fuel directory_exists walk svc)) = true
   <-> fst (initialize encode processor fuel directory_exists walk svc) = Ok tt)
  /\ (initialized svc = true \/ count (vector_store svc) <> 0%nat ->
      vector_store (snd (initialize encode processor fuel directory_exists walk svc))
      = vector_store svc).
Proof.
  unfold initialize. split.
  - destruct (initialized svc) eqn:Hi; [simpl; rewrite Hi; split; reflexivity|].
    destruct (Nat.eqb (count (vector_store svc)) 0); [|simpl; split; reflexivity].
    destruct (load_documents encode processor fuel directory_exists walk (vector_store svc))
      as [[[]| x |] st'];
      simpl; split; congruence.
  - intros H. destruct (initialized svc) eqn:Hi; [reflexivity|].
    destruct H as [H | H]; [discriminate|].
    apply Nat.eqb_neq in H. rewrite H. reflexivity.
Qed.

(** The [/chat] route answers 422 exactly when the message has fewer
    than 1 or more than 1000 characters, and 400 (with the detail
    [Message cannot be empty]) exactly when it is valid but only
    whitespace; in both cases neither the store nor the model is
    consulted. *)
Theorem route_chat_rejects svc message :
  (route_chat encode ranks_before complete top_k svc message = Http422
   <-> ~ (1 <= py_len message <= 1000))
  /\ (forall detail,
        route_chat encode ranks_before complete top_k svc message = Http400 detail
        <-> (1 <= py_len message <= 1000
             /\ Forall (fun c => isspace c = true) message
             /\ detail = empty_message_detail)).
Proof.
  unfold route_chat.
  destruct ((1 <=? py_len message) && (py_len message <=? 1000)) eqn:Hv.
  - apply andb_true_iff in Hv. destruct Hv as [Hv1 Hv2].
    apply Z.leb_le in Hv1. apply Z.leb_le in Hv2.
    destruct (strip message) as [|c r] eqn:Hs.
    + split; [split; [discriminate | lia]|].
      intros detail. split.
      * intros H. injection H as <-. split; [lia|]. split; [|reflexivity].
        apply strip_nil_iff. exact Hs.
      * intros [_ [_ ->]]. reflexivity.
    + assert (Hne : ~ Forall (fun c => isspace c = true) message)
        by (rewrite <- strip_nil_iff, Hs; discriminate).
      destruct (chat encode ranks_before complete top_k svc (c :: r));
        (split; [split; [discriminate | lia]|]);
        intros detail; (split; [discriminate | intros [_ [H _]]; contradiction]).
  - assert (Hinv : ~ (1 <= py_len message <= 1000)).
    { intros [H1 H2]. apply Z.leb_le in H1. apply Z.leb_le in H2.
      rewrite H1, H2 in Hv. discriminate. }
    split; [split; [intros _; exact Hinv | intros _; reflexivity]|].
    intros detail. split; [discriminate | intros [H _]; contradiction].
Qed.

Lemma search_ok_docs st q k rs :
  search encode ranks_before st q k = Ok rs ->
  Z.of_nat (List.length rs) <= Z.max 0 k
  /\ incl rs (map document (collection st)).
Proof.
  unfold search. destruct (Nat.eqb (count st) 0).
  - intros H. injection H as <-. split; [simpl; lia | intros x []].
  - destruct (encode q) as [qe|]; [|discriminate]. unfold collection_query.
    destruct (Z.min k (Z.of_nat (count st)) <? 1) eqn:Hlt; [discriminate|].
    apply Z.ltb_ge in Hlt. intros H. injection H as <-.
    split.
    + rewrite length_map, length_firstn. lia.
    + intros x Hx. apply in_map_iff in Hx. destruct Hx as [e [<- He]].
      apply in_map.
      set (n := Z.to_nat (Z.min k (Z.of_nat (count st)))) in He.
      set (l := sort_by (ranks_before st qe) (collection st)) in He.
      assert (Hl : In e l) by (rewrite <- (firstn_skipn n l); apply in_or_app; left; exact He).
      exact (Permutation_in _ (sort_by_perm _ (collection st)) Hl).
Qed.

(** A 200 answer of the [/chat] route is the model's completion for the
    system message and the user message built from the stripped question
    and at most [top_k] passages, all documents of the store, found by
    [search] on the stripped question. *)
Theorem route_chat_ok svc message body :
  route_chat encode ranks_before complete top_k svc message = Http200 body ->
  exists context, initialized svc = true /\ strip message <> []
    /\ search encode ranks_before (vector_store svc) (strip message) top_k = Ok context
    /\ complete system_message (user_message (strip message) context) = Some body
    /\ Z.of_nat (List.length context) <= Z.max 0 top_k
    /\ incl context (map document (collection (vector_store svc))).
Proof.
  unfold route_chat.
  destruct ((1 <=? py_len message) && (py_len message <=? 1000)); [|discriminate].
  destruct (strip message) as [|c r] eqn:Hs; [discriminate|].
  unfold chat. destruct (initialized svc) eqn:Hi; [|discriminate].
  destruct (search encode ranks_before (vector_store svc) (c :: r) top_k) as [ctx| |] eqn:E;
    try discriminate.
  unfold generate_response.
  destruct (complete system_message (user_message (c :: r) ctx)) as [b|] eqn:Hc;
    [|discriminate].
  intros H. injection H as <-.
  destruct (search_ok_docs _ _ _ _ E) as [Hl Hin].
  exists ctx. split; [reflexivity|]. split; [discriminate|].
  split; [reflexivity|]. split; [first [exact Hc | reflexivity]|]. split; assumption.
Qed.

End Facts.

Lemma load_documents_outcome_witness :
  let enc := fun s : pystr => Some (py_len s) in
  let proc := {| chunk_size := 500; chunk_overlap := 50 |} in
  let walk := [{| root := lit "data"; file := lit "about.txt";
                  disk := Some (lit "MEU teaches tourism.") |}] in
  let st := snd (add_documents enc
                   [{| content := lit "Old.";
                       metadata := Some {| source := lit "old.txt"; chunk_index := 0;
                                           total_chunks := 1;
                                           file_path := lit "data/old.txt" |} |}]
                   (@empty_store Z)) in
  reachable enc st
  /\ fst (load_documents enc proc 30 true walk st) = Ok tt
  /\ count (snd (load_documents enc proc 30 true walk st)) = 2%nat
  /\ (fst (load_documents enc proc 30 true walk st) = Ok tt ->
        exists docs batch, process_directory proc 30 true walk = Ok docs
          /\ snd (load_documents enc proc 30 true walk st)
             = {| collection := collection st ++ batch |}
          /\ map document batch = map content docs
          /\ map meta batch = map metadata docs)
  /\ (fst (load_documents enc proc 30 true walk st) <> Ok tt ->
      snd (load_documents enc proc 30 true walk st) = st).
Proof.
  intros enc proc walk st.
  assert (Hr : reachable enc st) by (apply reach_add, reach_new).
  split; [exact Hr|]. split; [vm_compute; reflexivity|]. split; [vm_compute; reflexivity|].
  apply (load_documents_outcome enc proc 30 true walk st Hr).
Defined.

Lemma route_chat_ok_witness :
  let enc := fun s : pystr => Some (py_len s) in
  let rank := fun (_ : @store Z) (q : Z) (a b : @entry Z) =>
    Z.abs (q - vector a) <=? Z.abs (q - vector b) in
  let cmp := fun (sys usr : pystr) => Some (lit "MEU offers tourism courses.") in
  let svc := {| vector_store :=
                  {| collection :=
                       [{| id := 0; vector := 5; document := lit "Courses."; meta := None |};
                        {| id := 1; vector := 9; document := lit "Our mission."; meta := None |}] |};
                initialized := true |} in
  route_chat enc rank cmp 3 svc (lit "  Courses? ")
    = Http200 (lit "MEU offers tourism courses.")
  /\ exists context, initialized svc = true /\ strip (lit "  Courses? ") <> []
     /\ search enc rank (vector_store svc) (strip (lit "  Courses? ")) 3 = Ok context
     /\ cmp system_message (user_message (strip (lit "  Courses? ")) context)
        = Some (lit "MEU offers tourism courses.")
     /\ Z.of_nat (List.length context) <= Z.max 0 3
     /\ incl context (map document (collection (vector_store svc))).
Proof.
  intros enc rank cmp svc. split; [vm_compute; reflexivity|].
  apply (route_chat_ok enc rank cmp 3 svc). vm_compute. reflexivity.
Defined.

End ServiceFacts.
